(** * use-cannon: the bridge between a physics worker and its render-side consumers

    A shallow embedding of the orchestration layer of the repository:

    - [Provider]  the render-side frame handler and step loop
                  (src/unnamed/part_000), the registry rebuild of the older
                  provider (src/src/Provider.tsx), and the body and
                  subscription hooks (src/src/hooks.ts);
    - [Worker]    the simulation host that executes the operations
                  (src/unnamed/part_001, and src/src/worker.js which has the
                  same control flow with a smaller shape vocabulary);
    - [HostStep]  the [step] case of the same host, with the physics engine
                  and the typed arrays as parameters.

    JavaScript numbers are rationals here: no property below depends on
    rounding.  Objects with reference identity (visual handles, rigid bodies)
    live in an explicit store and are named by their location, so that two
    table entries naming one object really share it.  User callbacks are
    opaque: invoking one is recorded in a log. *)

From Stdlib Require Import QArith Qround.
From stdpp Require Import base option list gmap strings pretty fin_maps.

Local Open Scope string_scope.
Local Open Scope list_scope.
Local Open Scope nat_scope.

(** ** Plain structured data *)

(** The values that may sit in a message payload or a props record. *)
#[local] Unset Elimination Schemes.
Inductive JVal :=
  | JUndef
  | JNull
  | JBool (b : bool)
  | JNum (q : Q)
  | JStr (s : string)
  | JArr (l : list JVal)
  | JObj (fields : list (string * JVal)).
#[local] Set Elimination Schemes.

Inductive Error :=
  | TypeError (what : string)
  | UserError (message : string).

(** ** Effects: mutable state with exceptions

    A computation runs on a state and either returns or throws; the state
    reached when it throws is kept, as mutations done before a JavaScript
    exception are. *)

Inductive Res (A : Type) :=
  | Ok (a : A)
  | Throw (e : Error).
Arguments Ok {A} a.
Arguments Throw {A} e.

Definition Eff (St A : Type) : Type := St → St * Res A.

Definition ret {St A} (a : A) : Eff St A := λ s, (s, Ok a).
Definition throw {St A} (e : Error) : Eff St A := λ s, (s, Throw e).
Definition bind {St A B} (m : Eff St A) (k : A → Eff St B) : Eff St B :=
  λ s, match m s with
       | (s', Ok a) => k a s'
       | (s', Throw e) => (s', Throw e)
       end.
Definition get {St} : Eff St St := λ s, (s, Ok s).
Definition modify {St} (f : St → St) : Eff St unit := λ s, (f s, Ok tt).
Definition lift {St A} (r : Res A) : Eff St A := λ s, (s, r).

Notation "'let*' x ':=' m 'in' k" := (bind m (λ x, k))
  (at level 10, x name, m at level 100, k at level 200).
Notation "m '>>' k" := (bind m (λ _, k))
  (at level 90, right associativity).

(** [for (const x of xs) body(x)] *)
Fixpoint for_each {St A} (xs : list A) (body : A → Eff St unit) : Eff St unit :=
  match xs with
  | [] => ret tt
  | x :: rest => body x >> for_each rest body
  end.

(** [for (let i = 0; i < xs.length; i++) body(i, xs[i])], entered at
    index [i] with [xs] the elements still to visit. *)
Fixpoint for_from {St A} (i : nat) (xs : list A) (body : nat → A → Eff St unit) : Eff St unit :=
  match xs with
  | [] => ret tt
  | x :: rest => body i x >> for_from (S i) rest body
  end.

(** [xs.map((x, i) => f(x, i))] for an [f] with effects, entered at index [i]. *)
Fixpoint map_from {St A B} (i : nat) (f : nat → A → Eff St B) (xs : list A) : Eff St (list B) :=
  match xs with
  | [] => ret []
  | x :: rest => let* y := f i x in let* ys := map_from (S i) f rest in ret (y :: ys)
  end.

(** ** JavaScript objects used as tables, in insertion order *)

Section Table.
Context {V : Type}.

Fixpoint table_get (t : list (string * V)) (k : string) : option V :=
  match t with
  | [] => None
  | (k', v) :: rest => if decide (k' = k) then Some v else table_get rest k
  end.

(** [t[k] = v]: an existing key keeps its place, a new one goes last. *)
Fixpoint table_set (t : list (string * V)) (k : string) (v : V) : list (string * V) :=
  match t with
  | [] => [(k, v)]
  | (k', v') :: rest =>
      if decide (k' = k) then (k, v) :: rest else (k', v') :: table_set rest k v
  end.

(** [delete t[k]] *)
Definition table_delete (t : list (string * V)) (k : string) : list (string * V) :=
  filter (λ kv, kv.1 ≠ k) t.

(** [Object.values(t)] *)
Definition table_values (t : list (string * V)) : list V := snd <$> t.
End Table.

(** ** JavaScript semantics of plain data *)

(** JavaScript truthiness of plain data. *)
Definition truthy (v : JVal) : bool :=
  match v with
  | JUndef | JNull | JBool false => false
  | JNum q => negb (Qeq_bool q 0)
  | JStr s => if decide (s = "") then false else true
  | _ => true
  end.

(** [...v]: the elements of an iterable; anything else throws. *)
Definition spread (v : JVal) : Res (list JVal) :=
  match v with
  | JArr l => Ok l
  | JStr s => Ok ((λ c, JStr (String c "")) <$> String.list_ascii_of_string s)
  | _ => Throw (TypeError "not iterable")
  end.

(** The three components a [set(x, y, z)] call receives from a spread. *)
Definition triple (l : list JVal) : list JVal := take 3 (l ++ [JUndef; JUndef; JUndef]).

(** [v[i]] for plain data: reading a property of [undefined] or [null]
    throws, an array or a string is indexed, an object is looked up under
    the key's decimal name, and any other primitive has no such property. *)
Definition index (v : JVal) (i : nat) : Res JVal :=
  match v with
  | JUndef | JNull => Throw (TypeError "cannot read properties of undefined")
  | JArr l => Ok (default JUndef (l !! i))
  | JStr s => Ok (default JUndef ((λ c, JStr (String c "")) <$> String.list_ascii_of_string s !! i))
  | JObj fields => Ok (default JUndef (table_get fields (pretty i)))
  | _ => Ok JUndef
  end.

(** A destructuring default: [x = d] takes [d] exactly when [x] is [undefined]. *)
Definition default_arg (d : JVal) (a : JVal) : JVal :=
  match a with JUndef => d | _ => a end.

(** [array[i]] for an integer [i]: [undefined] outside the array. *)
Definition at_index {A} (array : list A) (i : Z) : option A :=
  if (i <? 0)%Z then None else array !! Z.to_nat i.

(** [array.indexOf(x)] *)
Fixpoint indexOf (array : list string) (x : string) : Z :=
  match array with
  | [] => (-1)%Z
  | y :: rest =>
      if decide (y = x) then 0%Z
      else let r := indexOf rest x in if (r <? 0)%Z then (-1)%Z else (1 + r)%Z
  end.

(** ** The render side: visual handles, registry, subscriptions *)

Module Provider.

Definition Callback := nat.
Definition PropValue := list Q.
Definition Scale := (Q * Q * Q)%type.

(** A transform matrix, kept as the recipe that produced it. *)
Inductive Matrix4 :=
  | MIdentity
  (** [m.compose(v.fromArray(..), q.fromArray(..), scale)] *)
  | MCompose (translation rotation : list (option Q)) (scale : Scale)
  (** [object.updateMatrix()] after [prepare] set position and rotation *)
  | MLocal (position rotation : list JVal) (scale : Scale).

(** The part of a [THREE.InstancedMesh] beyond [Object3D].  [version]
    counts the assignments [instanceMatrix.needsUpdate = true]. *)
Record Instances := {
  count : nat;
  instanceMatrix : list Matrix4;
  version : nat;
  dynamicUsage : bool;
}.

Record Object3D := {
  uuid : string;
  scale : Scale;
  matrix : Matrix4;
  matrixAutoUpdate : bool;
  userData : JVal;
  position : list JVal;
  rotation : list JVal;
  (** [Some _] exactly when [object instanceof InstancedMesh] *)
  instances : option Instances;
}.

Definition with_matrix (o : Object3D) (auto : bool) (m : Matrix4) : Object3D :=
  {| uuid := uuid o; scale := scale o; matrix := m; matrixAutoUpdate := auto;
     userData := userData o; position := position o; rotation := rotation o;
     instances := instances o |}.

Definition with_instances (o : Object3D) (d : Instances) : Object3D :=
  {| uuid := uuid o; scale := scale o; matrix := matrix o;
     matrixAutoUpdate := matrixAutoUpdate o;
     userData := userData o; position := position o; rotation := rotation o;
     instances := Some d |}.

(** [ref.setMatrixAt(i, m)]: copies [m] into slot [i] of the shared
    array; a typed array ignores a write outside its range. *)
Definition setMatrixAt (i : nat) (m : Matrix4) (d : Instances) : Instances :=
  {| count := count d; instanceMatrix := <[i := m]> (instanceMatrix d);
     version := version d; dynamicUsage := dynamicUsage d |}.

(** [ref.instanceMatrix.needsUpdate = true] *)
Definition needsUpdate (d : Instances) : Instances :=
  {| count := count d; instanceMatrix := instanceMatrix d;
     version := S (version d); dynamicUsage := dynamicUsage d |}.

(** [ref.instanceMatrix.setUsage(DynamicDrawUsage)] *)
Definition setDynamicUsage (d : Instances) : Instances :=
  {| count := count d; instanceMatrix := instanceMatrix d;
     version := version d; dynamicUsage := true |}.

Record EventRecord := {
  collide : option Callback;
  collideBegin : option Callback;
  collideEnd : option Callback;
}.

(** What the hooks hand to the worker API. *)
Record SerializedProps := {
  sp_onCollide : bool;
  sp_args : JVal;
  sp_position : JVal;
  sp_rotation : JVal;
  sp_userData : JVal;
  sp_rest : list (string * JVal);
}.

Inductive WorkerOp :=
  | OpStep (maxSubSteps : nat) (stepSize timeSinceLastCalled : Q)
  | OpSubscribe (id : nat) (target type uuid : string)
  | OpUnsubscribe (id : nat)
  | OpAddBodies (props : list SerializedProps) (type : string) (uuid : list string)
  | OpRemoveBodies (uuid : list string).

(** Everything the provider and the hooks share. *)
Record State := {
  heap : gmap nat Object3D;                     (* the scene objects *)
  refs : list (string * nat);                   (* identity → handle *)
  bodies : gmap string Z;                       (* [bodies.current] *)
  subscriptions : gmap nat (gmap string Callback);
  events : gmap string EventRecord;
  incrementingId : nat;
  timeSinceLastCalled : Q;
  sent : list WorkerOp;                         (* calls on the worker API *)
  invalidations : nat;                          (* calls of [invalidate()] *)
  calls : list (nat * Callback * PropValue);    (* callbacks invoked, by subscription id *)
}.

Definition set_heap (f : gmap nat Object3D → gmap nat Object3D) (s : State) : State :=
  {| heap := f (heap s); refs := refs s; bodies := bodies s;
     subscriptions := subscriptions s; events := events s;
     incrementingId := incrementingId s;
     timeSinceLastCalled := timeSinceLastCalled s; sent := sent s;
     invalidations := invalidations s; calls := calls s |}.
Definition set_refs (f : list (string * nat) → list (string * nat)) (s : State) : State :=
  {| heap := heap s; refs := f (refs s); bodies := bodies s;
     subscriptions := subscriptions s; events := events s;
     incrementingId := incrementingId s;
     timeSinceLastCalled := timeSinceLastCalled s; sent := sent s;
     invalidations := invalidations s; calls := calls s |}.
Definition set_bodies (f : gmap string Z → gmap string Z) (s : State) : State :=
  {| heap := heap s; refs := refs s; bodies := f (bodies s);
     subscriptions := subscriptions s; events := events s;
     incrementingId := incrementingId s;
     timeSinceLastCalled := timeSinceLastCalled s; sent := sent s;
     invalidations := invalidations s; calls := calls s |}.
Definition set_subscriptions
    (f : gmap nat (gmap string Callback) → gmap nat (gmap string Callback))
    (s : State) : State :=
  {| heap := heap s; refs := refs s; bodies := bodies s;
     subscriptions := f (subscriptions s); events := events s;
     incrementingId := incrementingId s;
     timeSinceLastCalled := timeSinceLastCalled s; sent := sent s;
     invalidations := invalidations s; calls := calls s |}.
Definition set_events (f : gmap string EventRecord → gmap string EventRecord)
    (s : State) : State :=
  {| heap := heap s; refs := refs s; bodies := bodies s;
     subscriptions := subscriptions s; events := f (events s);
     incrementingId := incrementingId s;
     timeSinceLastCalled := timeSinceLastCalled s; sent := sent s;
     invalidations := invalidations s; calls := calls s |}.
Definition set_incrementingId (n : nat) (s : State) : State :=
  {| heap := heap s; refs := refs s; bodies := bodies s;
     subscriptions := subscriptions s; events := events s;
     incrementingId := n;
     timeSinceLastCalled := timeSinceLastCalled s; sent := sent s;
     invalidations := invalidations s; calls := calls s |}.
Definition set_timeSinceLastCalled (t : Q) (s : State) : State :=
  {| heap := heap s; refs := refs s; bodies := bodies s;
     subscriptions := subscriptions s; events := events s;
     incrementingId := incrementingId s;
     timeSinceLastCalled := t; sent := sent s;
     invalidations := invalidations s; calls := calls s |}.
Definition send (op : WorkerOp) (s : State) : State :=
  {| heap := heap s; refs := refs s; bodies := bodies s;
     subscriptions := subscriptions s; events := events s;
     incrementingId := incrementingId s;
     timeSinceLastCalled := timeSinceLastCalled s; sent := sent s ++ [op];
     invalidations := invalidations s; calls := calls s |}.
Definition invalidate (s : State) : State :=
  {| heap := heap s; refs := refs s; bodies := bodies s;
     subscriptions := subscriptions s; events := events s;
     incrementingId := incrementingId s;
     timeSinceLastCalled := timeSinceLastCalled s; sent := sent s;
     invalidations := S (invalidations s); calls := calls s |}.
Definition invoke (id : nat) (cb : Callback) (value : PropValue) (s : State) : State :=
  {| heap := heap s; refs := refs s; bodies := bodies s;
     subscriptions := subscriptions s; events := events s;
     incrementingId := incrementingId s;
     timeSinceLastCalled := timeSinceLastCalled s; sent := sent s;
     invalidations := invalidations s; calls := calls s ++ [(id, cb, value)] |}.

(** *** part_000: [apply] and [frameHandler] *)

Definition unit_scale : Scale := (1, 1, 1)%Q.

(** [v.fromArray(array, offset)] reads [n] consecutive cells. *)
Definition fromArray (n : nat) (array : list Q) (offset : Z) : list (option Q) :=
  (λ k : nat, at_index array (offset + Z.of_nat k)) <$> seq 0 n.

(** [apply(index, positions, quaternions, object?)]: the matrix it
    returns, and the object it was given after the call.  The scratch
    values [v], [q], [m] are overwritten before every use and are not
    part of the state. *)
Definition apply (index : option Z) (positions quaternions : list Q)
    (object : option Object3D) : Matrix4 * option Object3D :=
  match index with
  | Some ix =>
      let m := MCompose (fromArray 3 positions (ix * 3)) (fromArray 4 quaternions (ix * 4))
                 (match object with Some o => scale o | None => unit_scale end) in
      (m, (λ o, with_matrix o false m) <$> object)
  | None => (MIdentity, object)
  end.

Record FrameMessage := {
  active : bool;
  fm_bodies : option (list string);
  observations : list (nat * PropValue * string);
  positions : list Q;
  quaternions : list Q;
}.

(** [for (let i = 0; i < uuids.length; i++) bodies.current[uuids[i]] = i],
    entered at position [i]. *)
Fixpoint index_bodies (uuids : list string) (i : nat) (reg : gmap string Z) : gmap string Z :=
  match uuids with
  | [] => reg
  | u :: rest => index_bodies rest (S i) (<[u := Z.of_nat i]> reg)
  end.

(** One [observations.forEach] callback. *)
Definition observe (o : nat * PropValue * string) (s : State) : State :=
  let '(id, value, type) := o in
  let subscription := default ∅ (subscriptions s !! id) in
  match subscription !! type with
  | Some cb => invoke id cb value s
  | None => s
  end.

(** The identity of replica [i] of an instanced handle. *)
Definition replica_uuid (base : string) (i : nat) : string :=
  base +:+ "/" +:+ pretty i.

(** One turn of the per-replica loop. *)
Definition frame_replica (reg : gmap string Z) (positions quaternions : list Q)
    (base : string) (d : Instances) (i : nat) : Instances :=
  needsUpdate
    match reg !! replica_uuid base i with
    | Some index => setMatrixAt i (apply (Some index) positions quaternions None).1 d
    | None => d
    end.

(** The body of [for (const ref of Object.values(refs))]. *)
Definition frame_ref (reg : gmap string Z) (positions quaternions : list Q)
    (o : Object3D) : Object3D :=
  match instances o with
  | Some d =>
      with_instances o
        (foldl (frame_replica reg positions quaternions (uuid o)) d (seq 0 (count d)))
  | None =>
      default o (apply (reg !! uuid o) positions quaternions (Some o)).2
  end.

Definition frame_refs (reg : gmap string Z) (positions quaternions : list Q)
    (handles : list nat) (h : gmap nat Object3D) : gmap nat Object3D :=
  foldl (λ h l, match h !! l with
                | Some o => <[l := frame_ref reg positions quaternions o]> h
                | None => h
                end) h handles.

Definition frameHandler (shouldInvalidate : bool) (msg : FrameMessage) (s : State) : State :=
  let s1 := set_bodies (index_bodies (default [] (fm_bodies msg)) 0) s in
  let s2 := foldl (λ s o, observe o s) s1 (observations msg) in
  if active msg then
    let s3 := set_heap (frame_refs (bodies s2) (positions msg) (quaternions msg)
                          (table_values (refs s2))) s2 in
    if shouldInvalidate then invalidate s3 else s3
  else s2.

(** *** part_000: the render-loop callback [loop] *)

Definition loop (isPaused : bool) (maxSubSteps : nat) (stepSize delta : Q)
    (s : State) : State :=
  if isPaused then s
  else
    let t := (timeSinceLastCalled s + delta)%Q in
    set_timeSinceLastCalled 0%Q (send (OpStep maxSubSteps stepSize t) s).

(** *** Provider.tsx: the [sync] message rebuilds the registry *)

Definition sync (ids : list string) : gmap string Z :=
  foldl (λ acc id, <[id := indexOf ids id]> acc) ∅ ids.

Definition onSync (ids : list string) (s : State) : State :=
  set_bodies (λ _, sync ids) s.

End Provider.

(** ** The hooks (src/src/hooks.ts) *)

Module Hooks.
Import Provider.

(** [getUUID(ref, index)], for a ref object whose [current] is [ref]. *)
Definition getUUID (ref : option nat) (index : option nat) (s : State) : option string :=
  match ref with
  | Some l =>
      match heap s !! l with
      | Some o => Some (uuid o +:+ match index with
                                   | None => ""
                                   | Some i => "/" +:+ pretty i
                                   end)
      | None => None
      end
  | None => None
  end.

(** [subscribe(ref, worker, subscriptions, type, index, target)(callback)]:
    the new state and the id that the returned unsubscribe closure holds.
    The [subscribe] of the rotation API is this one at type "quaternion",
    with the callback wrapped by [quaternionToRotation]. *)
Definition subscribe (ref : option nat) (type : string) (index : option nat)
    (target : string) (callback : Callback) (s : State) : State * nat :=
  let id := incrementingId s in
  let s1 := set_incrementingId (S id) s in
  let s2 := set_subscriptions (λ subs, <[id := {[type := callback]}]> subs) s1 in
  let s3 := match getUUID ref index s2 with
            | Some u => if decide (u = "") then s2 else send (OpSubscribe id target type u) s2
            | None => s2
            end in
  (s3, id).

(** The closure returned by [subscribe]. *)
Definition unsubscribe (id : nat) (s : State) : State :=
  send (OpUnsubscribe id) (set_subscriptions (λ subs, delete id subs) s).

Record BodyProps := {
  args : JVal;
  bp_position : JVal;
  bp_rotation : JVal;
  bp_userData : JVal;
  onCollide : option Callback;
  onCollideBegin : option Callback;
  onCollideEnd : option Callback;
  rest : list (string * JVal);
}.

(** [prepare(object, props)]: the object as the call leaves it, and
    whether the call returned.  User data, position and rotation are set
    in this order, then the matrix is recomputed; spreading a position or
    rotation that is not iterable throws, with the earlier assignments done. *)
Definition prepare (object : Object3D) (props : BodyProps) : Object3D * Res unit :=
  let o1 := {| uuid := uuid object; scale := scale object; matrix := matrix object;
               matrixAutoUpdate := matrixAutoUpdate object;
               userData := if truthy (bp_userData props) then bp_userData props
                           else JObj [];
               position := position object; rotation := rotation object;
               instances := instances object |} in
  match spread (if truthy (bp_position props) then bp_position props
                else JArr [JNum 0; JNum 0; JNum 0]) with
  | Throw e => (o1, Throw e)
  | Ok p =>
      let o2 := {| uuid := uuid o1; scale := scale o1; matrix := matrix o1;
                   matrixAutoUpdate := matrixAutoUpdate o1; userData := userData o1;
                   position := triple p; rotation := rotation o1;
                   instances := instances o1 |} in
      match spread (if truthy (bp_rotation props) then bp_rotation props
                    else JArr [JNum 0; JNum 0; JNum 0]) with
      | Throw e => (o2, Throw e)
      | Ok r =>
          ({| uuid := uuid o2; scale := scale o2;
              matrix := MLocal (triple p) (triple r) (scale o2);
              matrixAutoUpdate := matrixAutoUpdate o2; userData := userData o2;
              position := triple p; rotation := triple r;
              instances := instances o2 |}, Ok tt)
      end
  end.

(** The module-level scratch object [temp = new Object3D()]; [prepare]
    overwrites every field of it that is read afterwards. *)
Definition temp : Object3D :=
  {| uuid := ""; scale := unit_scale; matrix := MIdentity; matrixAutoUpdate := true;
     userData := JObj []; position := triple []; rotation := triple [];
     instances := None |}.

Definition setupCollision (props : BodyProps) (id : string) (s : State) : State :=
  set_events (λ ev, <[id := {| collide := onCollide props;
                                collideBegin := onCollideBegin props;
                                collideEnd := onCollideEnd props |}]> ev) s.

(** [({ onCollide, onCollideBegin, onCollideEnd, ...serializableProps }) =>
    ({ onCollide: Boolean(onCollide), ...serializableProps })], on the
    props whose [args] went through [argsFn]. *)
Definition serialize (props : BodyProps) (args' : JVal) : SerializedProps :=
  {| sp_onCollide := bool_decide (is_Some (onCollide props));
     sp_args := args';
     sp_position := bp_position props;
     sp_rotation := bp_rotation props;
     sp_userData := bp_userData props;
     sp_rest := rest props |}.

(** A method call on the object at [l] that mutates it and may throw. *)
Definition update_object (l : nat) (f : Object3D → Object3D * Res unit) : Eff State unit :=
  λ s, match heap s !! l with
       | Some o => (set_heap (λ h, <[l := (f o).1]> h) s, (f o).2)
       | None => (s, Throw (TypeError "null object"))
       end.

(** The callback of [uuid.map((id, i) => ...)] in the layout effect of
    [useBody], for the handle at [l].  No debug context is installed. *)
Definition register_body (fn : nat → BodyProps) (argsFn : JVal → Res JVal)
    (l : nat) (instanced : bool) (i : nat) (id : string) : Eff State SerializedProps :=
  let props := fn i in
  (if instanced then
     lift (prepare temp props).2 >>
     update_object l
       (λ o, (match instances o with
              | Some d =>
                  with_instances o
                    (needsUpdate (setMatrixAt i (matrix (prepare temp props).1) d))
              | None => o
              end, Ok tt))
   else update_object l (λ o, prepare o props)) >>
  modify (set_refs (λ r, table_set r id l)) >>
  modify (setupCollision props id) >>
  let* a := lift (argsFn (args props)) in
  ret (serialize props a).

(** The identities a handle stands for: one per replica for an instanced
    handle, its own otherwise. *)
Definition body_uuids (o : Object3D) : list string :=
  match instances o with
  | Some d => (λ i, uuid o +:+ "/" +:+ pretty i) <$> seq 0 (count d)
  | None => [uuid o]
  end.

(** The layout effect of [useBody] for a ref whose [current] is the
    object at [l] (a ref without an object is given a fresh stub object
    first, and the effect is then this one for the stub); it returns the
    identities the cleanup will remove. *)
Definition useBody (type : string) (fn : nat → BodyProps) (argsFn : JVal → Res JVal)
    (l : nat) : Eff State (list string) :=
  let* s := get in
  match heap s !! l with
  | None => throw (TypeError "null object")
  | Some object =>
      let uuids := body_uuids object in
      update_object l (λ o, (match instances o with
                             | Some d => with_instances o (setDynamicUsage d)
                             | None => o
                             end, Ok tt)) >>
      let* props := map_from 0 (register_body fn argsFn l
                                  (bool_decide (is_Some (instances object))))
                            uuids in
      modify (send (OpAddBodies props type uuids)) >>
      ret uuids
  end.

(** The cleanup returned by the layout effect. *)
Definition useBody_cleanup (uuids : list string) (s : State) : State :=
  send (OpRemoveBodies uuids)
    (foldl (λ s id, set_events (λ ev, delete id ev)
                      (set_refs (λ r, table_delete r id) s)) s uuids).

(** *** The shape constructors: each fixes a type tag and an [argsFn] *)

Definition usePlane (fn : nat → BodyProps) := useBody "Plane" fn (λ _, Ok (JArr [])).
Definition useBox (fn : nat → BodyProps) :=
  useBody "Box" fn (λ a, Ok (default_arg (JArr [JNum 1; JNum 1; JNum 1]) a)).
Definition useCylinder (fn : nat → BodyProps) :=
  useBody "Cylinder" fn (λ a, Ok (default_arg (JArr []) a)).
Definition useHeightfield (fn : nat → BodyProps) := useBody "Heightfield" fn (λ a, Ok a).
Definition useParticle (fn : nat → BodyProps) := useBody "Particle" fn (λ _, Ok (JArr [])).

Definition sphereArgs (a : JVal) : Res JVal :=
  match default_arg (JArr [JNum 1]) a with
  | JArr l => Ok (JArr [default JUndef (l !! 0)])
  | _ => Throw (UserError "useSphere args must be an array")
  end.
Definition useSphere (fn : nat → BodyProps) := useBody "Sphere" fn sphereArgs.

Definition useTrimesh (fn : nat → BodyProps) := useBody "Trimesh" fn (λ a, Ok a).

(** [x && x.map(makeTriplet)]; a vertex that is already a triplet is
    returned as it is. *)
Definition and_map (x : JVal) : Res JVal :=
  if truthy x then
    match x with
    | JArr l => Ok (JArr l)
    | _ => Throw (TypeError "map is not a function")
    end
  else Ok x.

Definition convexPolyhedronArgs (a : JVal) : Res JVal :=
  match spread (default_arg (JArr []) a) with
  | Throw e => Throw e
  | Ok l =>
      let field i := default JUndef (l !! i) in
      match and_map (field 0%nat), and_map (field 2%nat), and_map (field 3%nat) with
      | Ok vertices, Ok normals, Ok axes =>
          Ok (JArr [vertices; field 1%nat; normals; axes; field 4%nat])
      | Throw e, _, _ => Throw e
      | _, Throw e, _ => Throw e
      | _, _, Throw e => Throw e
      end
  end.
Definition useConvexPolyhedron (fn : nat → BodyProps) :=
  useBody "ConvexPolyhedron" fn convexPolyhedronArgs.
Definition useCompoundBody (fn : nat → BodyProps) := useBody "Compound" fn (λ a, Ok a).

End Hooks.

(** ** The simulation host (src/unnamed/part_001)

    The rigid bodies are objects of the physics engine: the world's body
    list and the host's identity table both hold references to them, so they
    live in a store.  The engine's constructors are kept symbolic.  The
    older host src/src/worker.js has the same [addBodies], [removeBody],
    [removeBodies], [setPosition] and [syncBodies] and a smaller shape
    switch with the same empty [default] branch. *)

Module Worker.

Inductive Shape :=
  | Box (halfExtents : list JVal)
  | ConvexPolyhedron (vertices : list (list JVal)) (faces : JVal)
  | Cylinder (args : list JVal)
  | Heightfield (args : list JVal)
  | Particle
  | Plane
  | Sphere (args : list JVal)
  | Trimesh (args : list JVal).

Inductive Quaternion :=
  | QIdentity
  (** [quaternion.setFromEuler(x, y, z)], order XYZ *)
  | QFromEuler (x y z : JVal).

Record Body := {
  uuid : string;
  kinematic : bool;                    (* [type: Body.KINEMATIC] *)
  options : list (string * JVal);      (* the other constructor options *)
  shapes : list Shape;
  position : JVal * JVal * JVal;
  quaternion : Quaternion;
}.

Definition addShape (sh : Shape) (b : Body) : Body :=
  {| uuid := uuid b; kinematic := kinematic b; options := options b;
     shapes := shapes b ++ [sh]; position := position b;
     quaternion := quaternion b |}.
Definition set_position (p : JVal * JVal * JVal) (b : Body) : Body :=
  {| uuid := uuid b; kinematic := kinematic b; options := options b;
     shapes := shapes b; position := p; quaternion := quaternion b |}.
Definition set_quaternion (q : Quaternion) (b : Body) : Body :=
  {| uuid := uuid b; kinematic := kinematic b; options := options b;
     shapes := shapes b; position := position b; quaternion := q |}.

(** The [props] of an [addBody] message. *)
Record BodyProps := {
  args : JVal;
  bp_position : JVal;
  bp_rotation : JVal;
  bp_scale : JVal;
  isKinematic : JVal;
  extra : list (string * JVal);
}.

Inductive Msg :=
  | AddBody (uuid type : string) (props : BodyProps)
  | AddBodies (uuid : list string) (type : string) (props : list BodyProps)
  | RemoveBody (uuid : string)
  | RemoveBodies (uuid : list string)
  | SetPosition (uuid : string) (props : JVal)
  | SetRotation (uuid : string) (props : JVal)
  (** any operation name without a case in the switch *)
  | Other (op : string).

Inductive OutMsg :=
  | Sync (bodies : list string).

Record State := {
  store : gmap nat Body;        (* the body objects, by location *)
  next : nat;                   (* the next free location *)
  world : list nat;             (* [world.bodies] *)
  bodies : gmap string nat;     (* the identity table [bodies] *)
  outbox : list OutMsg;         (* [self.postMessage] calls *)
}.

Definition initial : State :=
  {| store := ∅; next := 0; world := []; bodies := ∅; outbox := [] |}.

Definition set_store (f : gmap nat Body → gmap nat Body) (s : State) : State :=
  {| store := f (store s); next := next s; world := world s;
     bodies := bodies s; outbox := outbox s |}.
Definition set_world (w : list nat) (s : State) : State :=
  {| store := store s; next := next s; world := w;
     bodies := bodies s; outbox := outbox s |}.
Definition set_table (t : gmap string nat) (s : State) : State :=
  {| store := store s; next := next s; world := world s;
     bodies := t; outbox := outbox s |}.
Definition postMessage (m : OutMsg) (s : State) : State :=
  {| store := store s; next := next s; world := world s;
     bodies := bodies s; outbox := outbox s ++ [m] |}.

(** [new Body(options)]: a fresh object. *)
Definition new_body (b : Body) : Eff State nat :=
  λ s, ({| store := <[next s := b]> (store s); next := S (next s);
           world := world s; bodies := bodies s; outbox := outbox s |},
        Ok (next s)).

Definition uuid_at (s : State) (l : nat) : string :=
  default "" (uuid <$> store s !! l).

(** [world.bodies.map(body => body.uuid)] *)
Definition world_uuids (s : State) : list string := uuid_at s <$> world s.

(** [syncBodies()]: publish the ordered identities, rebuild the table. *)
Definition syncBodies : Eff State unit :=
  modify (λ s, postMessage (Sync (world_uuids s)) s) >>
  modify (λ s, set_table (foldl (λ acc l, <[uuid_at s l := l]> acc) ∅ (world s)) s).

(** The shape switch of [addBody]: the shapes to attach, in order. *)
Definition shapes_for (type : string) (args : JVal) : Res (list Shape) :=
  if decide (type = "Box") then
    match spread args with Ok l => Ok [Box (triple l)] | Throw e => Throw e end
  else if decide (type = "ConvexPolyhedron") then
    match spread args with
    | Throw e => Throw e
    | Ok l =>
        match default JUndef (l !! 0%nat) with
        | JArr vs =>
            match mapM (λ v, match spread v with
                             | Ok c => Some (triple c)
                             | Throw _ => None
                             end) vs with
            | Some vertices => Ok [ConvexPolyhedron vertices (default JUndef (l !! 1%nat))]
            | None => Throw (TypeError "not iterable")
            end
        | _ => Throw (TypeError "map is not a function")
        end
    end
  else if decide (type = "Cylinder") then
    match spread args with Ok l => Ok [Cylinder l] | Throw e => Throw e end
  else if decide (type = "Heightfield") then
    match spread args with Ok l => Ok [Heightfield l] | Throw e => Throw e end
  else if decide (type = "Particle") then Ok [Particle]
  else if decide (type = "Plane") then Ok [Plane]
  else if decide (type = "Sphere") then
    match spread args with Ok l => Ok [Sphere l] | Throw e => Throw e end
  else if decide (type = "Trimesh") then
    match spread args with Ok l => Ok [Trimesh l] | Throw e => Throw e end
  else Ok [].

(** The shape-type tags with a case in the switch. *)
Definition vocabulary : list string :=
  ["Box"; "ConvexPolyhedron"; "Cylinder"; "Heightfield"; "Particle"; "Plane";
   "Sphere"; "Trimesh"].

(** [[v[0], v[1], v[2]]] *)
Definition index3 (v : JVal) : Res (JVal * JVal * JVal) :=
  match index v 0, index v 1, index v 2 with
  | Ok x, Ok y, Ok z => Ok (x, y, z)
  | Throw e, _, _ => Throw e
  | _, Throw e, _ => Throw e
  | _, _, Throw e => Throw e
  end.

Definition update_body (l : nat) (f : Body → Body) : Eff State unit :=
  modify (set_store (λ st, alter f l st)).

(** [const idx = bodies.indexOf(body); if (idx !== -1) bodies.splice(idx, 1)] *)
Fixpoint remove_first (l : nat) (w : list nat) : list nat :=
  match w with
  | [] => []
  | l' :: rest => if decide (l' = l) then rest else l' :: remove_first l rest
  end.

Section Engine.
(** What the engine's [world.removeBody] does to the body list when it
    is handed [undefined]; the engine is not part of the repository. *)
Variable removeBody_undefined : list nat → Res (list nat).

(** [world.addBody(body)] for a body that is not in the world. *)
Definition world_addBody (l : nat) : Eff State unit :=
  modify (λ s, set_world (world s ++ [l]) s).

(** [world.removeBody(b)] *)
Definition world_removeBody (b : option nat) : Eff State unit :=
  λ s, match b with
       | Some l => (set_world (remove_first l (world s)) s, Ok tt)
       | None => match removeBody_undefined (world s) with
                 | Ok w => (set_world w s, Ok tt)
                 | Throw e => (s, Throw e)
                 end
       end.

(** [case 'addBody'] *)
Definition addBody (id type : string) (props : BodyProps) (sync : bool) : Eff State unit :=
  let args := default_arg (JArr []) (args props) in
  let position := default_arg (JArr [JNum 0; JNum 0; JNum 0]) (bp_position props) in
  let rotation := default_arg (JArr [JNum 0; JNum 0; JNum 0]) (bp_rotation props) in
  let* body := new_body {| uuid := id; kinematic := truthy (isKinematic props);
                           options := extra props; shapes := [];
                           position := (JNum 0, JNum 0, JNum 0);
                           quaternion := QIdentity |} in
  let* shs := lift (shapes_for type args) in
  update_body body (λ b, foldl (λ b sh, addShape sh b) b shs) >>
  let* p := lift (index3 position) in
  update_body body (set_position p) >>
  let* r := lift (index3 rotation) in
  update_body body (set_quaternion (QFromEuler r.1.1 r.1.2 r.2)) >>
  world_addBody body >>
  if sync then syncBodies else ret tt.

(** [case 'removeBody'] *)
Definition removeBody (id : string) (sync : bool) : Eff State unit :=
  let* s := get in
  world_removeBody (bodies s !! id) >>
  if sync then syncBodies else ret tt.

(** [bodies[uuid].position] and the like: the body, or a [TypeError]
    when the table has no such entry. *)
Definition body_of (id : string) : Eff State nat :=
  let* s := get in
  match bodies s !! id with
  | Some l => ret l
  | None => throw (TypeError "cannot read properties of undefined")
  end.

(** [task(e, sync = true)] *)
Definition task (msg : Msg) (sync : bool) : Eff State unit :=
  match msg with
  | AddBody id type props => addBody id type props sync
  | AddBodies ids type props =>
      for_from 0 ids
        (λ i id, match props !! i with
                 | Some p => addBody id type p false
                 | None => throw (TypeError "cannot destructure undefined")
                 end) >>
      syncBodies
  | RemoveBody id => removeBody id sync
  | RemoveBodies ids =>
      for_each ids (λ id, removeBody id true) >>
      syncBodies
  | SetPosition id props =>
      let* b := body_of id in
      let* p := lift (index3 props) in
      update_body b (set_position p)
  | SetRotation id props =>
      let* b := body_of id in
      let* r := lift (index3 props) in
      update_body b (set_quaternion (QFromEuler r.1.1 r.1.2 r.2))
  | Other _ => ret tt
  end.

(** [self.onmessage = e => task(e)], for a queue of messages; an
    exception ends the handling of its message only. *)
Definition onmessage (msg : Msg) (s : State) : State := (task msg true s).1.

Definition run (msgs : list Msg) (s : State) : State :=
  foldl (λ s m, onmessage m s) s msgs.
End Engine.

End Worker.

(** ** The [step] operation on the host (src/unnamed/part_001, case 'step')

    The older host src/src/worker.js has the same case, line for line. *)

Module HostStep.
Import Worker.

(** The [data] of a [step] message: the parameters that the provider's
    [loop] hands to [worker.step], and the two transform buffers that
    travel with the message ([None] for a message without one). *)
Record StepMessage := {
  maxSubSteps : nat;
  stepSize : Q;
  timeSinceLastCalled : Q;
  positions : option (list JVal);
  quaternions : option (list JVal);
}.

(** A posted [{ op: 'frame', positions, quaternions }]. *)
Record Frame := {
  f_positions : list JVal;
  f_quaternions : list JVal;
}.

(** What the physics engine and the platform do, neither of which is part
    of the repository: [world.step(dt)] on the bodies of the world, the
    components [x, y, z, w] of a body's quaternion, and the number that an
    element of a [Float32Array] holds after it was assigned a value. *)
Record Engine := {
  world_step : JVal → list nat → gmap nat Body → gmap nat Body;
  components : Quaternion → JVal * JVal * JVal * JVal;
  fround : JVal → JVal;
}.

Record State := {
  host : Worker.State;          (* [world] and [bodies] *)
  config_step : JVal;           (* [config.step] *)
  substeps : list JVal;         (* the calls [world.step(dt)], by their [dt]:
                                   called with the step length alone, the
                                   engine takes one fixed step of that length *)
  frames : list Frame;          (* the posted frames *)
}.

(** [let config = { step: 1 / 60 }] over an empty world. *)
Definition initial : State :=
  {| host := Worker.initial; config_step := JNum (1 # 60); substeps := []; frames := [] |}.

(** The buffers of the message being handled. *)
Definition Buffers := (option (list JVal) * option (list JVal))%type.

(** [world.step(config.step)] *)
Definition step_world (E : Engine) (s : State) : State :=
  {| host := set_store (world_step E (config_step s) (world (host s))) (host s);
     config_step := config_step s;
     substeps := substeps s ++ [config_step s];
     frames := frames s |}.

(** [self.postMessage({ op: 'frame', positions, quaternions }, ...)] *)
Definition post_frame (f : Frame) (s : State) : State :=
  {| host := host s; config_step := config_step s; substeps := substeps s;
     frames := frames s ++ [f] |}.

(** [positions[k] = v]: a typed array stores the rounded number and
    ignores an index past its end; assigning into [undefined] throws. *)
Definition set_position_slot (E : Engine) (k : nat) (v : JVal) : Eff Buffers unit :=
  λ bufs, match bufs.1 with
          | Some ps => ((Some (<[k := fround E v]> ps), bufs.2), Ok tt)
          | None => (bufs, Throw (TypeError "cannot set properties of undefined"))
          end.

(** [quaternions[k] = v] *)
Definition set_quaternion_slot (E : Engine) (k : nat) (v : JVal) : Eff Buffers unit :=
  λ bufs, match bufs.2 with
          | Some qs => ((bufs.1, Some (<[k := fround E v]> qs)), Ok tt)
          | None => (bufs, Throw (TypeError "cannot set properties of undefined"))
          end.

(** The body of the loop over [world.bodies], for the body at position
    [i] (a position of the world always names a stored body; the first
    branch is there for totality). *)
Definition write_body (E : Engine) (st : gmap nat Body) (i : nat) (l : nat) : Eff Buffers unit :=
  match st !! l with
  | None => throw (TypeError "cannot read properties of undefined")
  | Some b =>
      let p := position b in
      let q := components E (quaternion b) in
      set_position_slot E (3 * i + 0) p.1.1 >>
      set_position_slot E (3 * i + 1) p.1.2 >>
      set_position_slot E (3 * i + 2) p.2 >>
      set_quaternion_slot E (4 * i + 0) q.1.1.1 >>
      set_quaternion_slot E (4 * i + 1) q.1.1.2 >>
      set_quaternion_slot E (4 * i + 2) q.1.2 >>
      set_quaternion_slot E (4 * i + 3) q.2
  end.

(** [case 'step'].  The message's [maxSubSteps], [stepSize] and
    [timeSinceLastCalled] are not read. *)
Definition step (E : Engine) (m : StepMessage) : Eff State unit :=
  modify (step_world E) >>
  let* s := get in
  let written := for_from 0 (world (host s)) (write_body E (store (host s)))
                   (positions m, quaternions m) in
  match written with
  | (_, Throw e) => throw e
  | ((Some ps, Some qs), Ok _) =>
      modify (post_frame {| f_positions := ps; f_quaternions := qs |})
  | (_, Ok _) =>
      (* [positions.buffer] of [undefined], in the transfer list *)
      throw (TypeError "cannot read properties of undefined")
  end.

End HostStep.

(** ** A session on the render side: what may happen, in any order *)

Module Session.
Import Provider Hooks.

Inductive Event :=
  | Subscribe (ref : option nat) (type : string) (index : option nat)
      (target : string) (callback : Callback)
  | Unsubscribe (id : nat)
  | Frame (shouldInvalidate : bool) (msg : FrameMessage)
  | Tick (isPaused : bool) (maxSubSteps : nat) (stepSize delta : Q).

Definition handle (e : Event) (s : State) : State :=
  match e with
  | Subscribe ref type index target callback =>
      (subscribe ref type index target callback s).1
  | Unsubscribe id => unsubscribe id s
  | Frame shouldInvalidate msg => frameHandler shouldInvalidate msg s
  | Tick isPaused maxSubSteps stepSize delta => loop isPaused maxSubSteps stepSize delta s
  end.

Definition run (es : list Event) (s : State) : State :=
  foldl (λ s e, handle e s) s es.

(** The callbacks invoked under subscription id [id]. *)
Definition routed (id : nat) (s : State) : list (nat * Callback * PropValue) :=
  filter (λ c, c.1.1 = id) (calls s).

End Session.

(** ** The properties, as the specification words them *)

Module Spec.
Import Provider.

(** The callback, if any, that an observation is to reach. *)
Definition delivery (subs : gmap nat (gmap string Callback))
    (o : nat * PropValue * string) : option (nat * Callback * PropValue) :=
  match subs !! o.1.1 with
  | Some sub => match sub !! o.2 with
                | Some cb => Some (o.1.1, cb, o.1.2)
                | None => None
                end
  | None => None
  end.

Definition deliveries (subs : gmap nat (gmap string Callback))
    (obs : list (nat * PropValue * string)) : list (nat * Callback * PropValue) :=
  omap (delivery subs) obs.

(** Restricted to the identities of [ids], the registry is a bijection
    onto [[0, length ids)]. *)
Definition bijection_on (reg : gmap string Z) (ids : list string) : Prop :=
  (∀ u, u ∈ ids → ∃ i, reg !! u = Some i ∧ (0 ≤ i < Z.of_nat (length ids))%Z) ∧
  (∀ u v i, u ∈ ids → v ∈ ids → reg !! u = Some i → reg !! v = Some i → u = v) ∧
  (∀ i, (0 ≤ i < Z.of_nat (length ids))%Z → ∃ u, u ∈ ids ∧ reg !! u = Some i).

(** The registry is a bijection from the identities of [ids] onto
    [[0, length ids)], and has no other entry. *)
Definition registry_bijection (reg : gmap string Z) (ids : list string) : Prop :=
  bijection_on reg ids ∧ ∀ u, u ∉ ids → reg !! u = None.

(** The pose composed for the body at registry index [ix], with the unit
    scale that [apply] uses when it is given no object. *)
Definition replica_pose (ps qs : list Q) (ix : Z) : Matrix4 :=
  MCompose (fromArray 3 ps (ix * 3)) (fromArray 4 qs (ix * 4)) unit_scale.

(** What [passes] passes of the frame loop over an instanced handle make
    of its replica data [d]: the replicas that resolve in the registry
    have their slot rewritten, and every replica of every pass bumps the
    version. *)
Definition passed (reg : gmap string Z) (ps qs : list Q) (base : string)
    (d d' : Instances) (passes : nat) : Prop :=
  count d' = count d ∧
  version d' = version d + passes * count d ∧
  length (instanceMatrix d') = length (instanceMatrix d) ∧
  ∀ i, instanceMatrix d' !! i =
       if decide (0 < passes ∧ i < count d) then
         match reg !! replica_uuid base i with
         | Some ix => (λ _, replica_pose ps qs ix) <$> instanceMatrix d !! i
         | None => instanceMatrix d !! i
         end
       else instanceMatrix d !! i.

(** The number of entries of the handle table that name the object at [l]. *)
Definition handle_entries (l : nat) (s : State) : nat :=
  length (filter (λ l', l' = l) (table_values (refs s))).

(** The shared buffer was marked dirty exactly once between [d] and [d']. *)
Definition marked_dirty_once (d d' : Instances) : Prop :=
  version d' = S (version d).

(** An operation that does nothing and raises nothing. *)
Definition silent_noop {St} (m : Eff St unit) (s : St) : Prop := m s = (s, Ok tt).

(** The declared type of a pose field: a triplet, or absent. *)
Definition pose_typed (v : JVal) : Prop := v = JUndef ∨ ∃ l, v = JArr l.

(** Props whose pose fields have their declared type. *)
Definition props_typed (p : Worker.BodyProps) : Prop :=
  pose_typed (Worker.bp_position p) ∧ pose_typed (Worker.bp_rotation p).

(** The declared type of [args]: an array, or absent. *)
Definition args_typed (v : JVal) : Prop := v = JUndef ∨ ∃ l, v = JArr l.

(** A constructor that hands [args] on without looking at them: mounted
    on the handle [o] at [l] it returns, and the one [addBodies] it sends
    lists, for every replica, the props with the args as [norm] leaves
    them. *)
Definition forwards (use : (nat → Hooks.BodyProps) → nat → Eff State (list string))
    (type : string) (norm : JVal → JVal) (fn : nat → Hooks.BodyProps)
    (l : nat) (o : Object3D) (s : State) : Prop :=
  ∃ s', use fn l s = (s', Ok (Hooks.body_uuids o)) ∧
        sent s' = sent s ++
          [OpAddBodies ((λ j, Hooks.serialize (fn j) (norm (Hooks.args (fn j)))) <$>
                          seq 0 (length (Hooks.body_uuids o)))
             type (Hooks.body_uuids o)].

(** A computation that leaves the calls on the worker API as they were,
    whether it returns or throws. *)
Definition quiet {A} (m : Eff State A) : Prop := ∀ s, sent (m s).1 = sent s.

(** A computation that never returns normally. *)
Definition throws {A} (m : Eff State A) : Prop := ∀ s, ∃ s' e, m s = (s', Throw e).

(** The body that the host's [addBody] builds when no shape is attached:
    identity, options and pose as given, no shape. *)
Definition inert (id : string) (props : Worker.BodyProps)
    (p r : JVal * JVal * JVal) : Worker.Body :=
  {| Worker.uuid := id; Worker.kinematic := truthy (Worker.isKinematic props);
     Worker.options := Worker.extra props; Worker.shapes := [];
     Worker.position := p; Worker.quaternion := Worker.QFromEuler r.1.1 r.1.2 r.2 |}.

(** The sub-steps that the specification's fixed-step accumulator owes a
    [step] operation when nothing was carried over: one for every whole
    [stepSize] of the elapsed time, and no more than [maxSubSteps]. *)
Definition owed_substeps (maxSubSteps : nat) (stepSize elapsed : Q) : nat :=
  Nat.min maxSubSteps (Z.to_nat (Qfloor (elapsed / stepSize))).

(** The [step] operation as the specification words it: handling the
    message, the host has the engine take the sub-steps that the
    accumulator owes, each of the message's [stepSize]. *)
Definition accumulates (E : HostStep.Engine) (m : HostStep.StepMessage)
    (s : HostStep.State) : Prop :=
  HostStep.substeps (HostStep.step E m s).1 =
  HostStep.substeps s ++
  replicate (owed_substeps (HostStep.maxSubSteps m) (HostStep.stepSize m)
               (HostStep.timeSinceLastCalled m))
    (JNum (HostStep.stepSize m)).

(** Every body of the world was allocated by the host. *)
Definition allocated (s : Worker.State) : Prop :=
  ∀ l, l ∈ Worker.world s → l < Worker.next s.

End Spec.

(** ** Concrete scenes and messages *)

Module Examples.
Import Provider Hooks.

Definition object3D (id : string) (inst : option Instances) : Object3D :=
  {| uuid := id; scale := unit_scale; matrix := MIdentity; matrixAutoUpdate := true;
     userData := JObj []; position := []; rotation := []; instances := inst |}.

(** An instanced mesh with two replicas (and room for a third). *)
Definition mesh : Object3D :=
  object3D "M" (Some {| count := 2;
                        instanceMatrix := [MIdentity; MIdentity; MIdentity];
                        version := 0; dynamicUsage := false |}).

Definition box : Object3D := object3D "B" None.

Definition empty : State :=
  {| heap := {[ 0 := mesh; 1 := box ]}; refs := []; bodies := ∅;
     subscriptions := ∅; events := ∅; incrementingId := 0;
     timeSinceLastCalled := 0; sent := []; invalidations := 0; calls := [] |}.

Definition props (a : JVal) : BodyProps :=
  {| args := a; bp_position := JUndef; bp_rotation := JUndef;
     bp_userData := JUndef; onCollide := None; onCollideBegin := None;
     onCollideEnd := None; rest := [] |}.

(** Props that listen to collisions: a callback of each kind. *)
Definition listening : BodyProps :=
  {| args := JUndef; bp_position := JUndef; bp_rotation := JUndef;
     bp_userData := JUndef; onCollide := Some 11; onCollideBegin := Some 12;
     onCollideEnd := Some 13; rest := [] |}.

(** The scene after [useSphere] registered the two replicas of the mesh. *)
Definition mounted : State := (useSphere (λ _, props JUndef) 0 empty).1.

Definition frame (on : bool) (ids : option (list string)) : FrameMessage :=
  {| active := on; fm_bodies := ids; observations := [];
     positions := [1; 2; 3; 4; 5; 6]%Q;
     quaternions := [0; 0; 0; 1; 0; 0; 0; 1]%Q |}.

Definition replicas (s : State) : option Instances :=
  heap s !! 0 ≫= instances.

(** An engine whose [removeBody] ignores [undefined]. *)
Definition lenient : list nat → Res (list nat) := λ w, Ok w.

Definition plain : Worker.BodyProps :=
  {| Worker.args := JUndef; Worker.bp_position := JUndef;
     Worker.bp_rotation := JUndef; Worker.bp_scale := JUndef;
     Worker.isKinematic := JUndef; Worker.extra := [] |}.

(** An engine that leaves every body where it is, reads the identity out
    of every quaternion and stores numbers as they are. *)
Definition still : HostStep.Engine :=
  {| HostStep.world_step := λ _ _ st, st;
     HostStep.components := λ _, (JNum 0, JNum 0, JNum 0, JNum 1);
     HostStep.fround := λ v, v |}.

(** The [step] message of a render tick after [elapsed] seconds, with
    [maxSubSteps = 10] and [stepSize = 1/60] and buffers with room for two
    bodies and one slot more. *)
Definition step_after (elapsed : Q) : HostStep.StepMessage :=
  {| HostStep.maxSubSteps := 10; HostStep.stepSize := 1 # 60;
     HostStep.timeSinceLastCalled := elapsed;
     HostStep.positions := Some (replicate 7 (JNum 9));
     HostStep.quaternions := Some (replicate 9 (JNum 9)) |}.

(** A host whose world holds the two bodies A and B. *)
Definition stepping : HostStep.State :=
  {| HostStep.host := Worker.run lenient
                        [Worker.AddBody "A" "Plane" plain;
                         Worker.AddBody "B" "Plane" plain] Worker.initial;
     HostStep.config_step := JNum (1 # 60);
     HostStep.substeps := []; HostStep.frames := [] |}.

(** The host after the given operations, from an empty world. *)
Definition host (msgs : list Worker.Msg) : Worker.State :=
  Worker.run lenient msgs Worker.initial.

(** The render side after receiving every body list the host published,
    each as the body list of a frame. *)
Definition after_frames (published : list Worker.OutMsg) : State :=
  foldl (λ s m, match m with
                | Worker.Sync ids => frameHandler true (frame true (Some ids)) s
                end) empty published.

(** The same, each as a [sync] message of the older provider. *)
Definition after_syncs (published : list Worker.OutMsg) : State :=
  foldl (λ s m, match m with Worker.Sync ids => onSync ids s end) empty published.
End Examples.

(** ** Runs of the render loop *)

Module Ticks.
Import Provider.

(** One call of the render-loop callback: the provider's [isPaused],
    [maxSubSteps] and [stepSize] at that render, and the frame's [delta]. *)
Record Tick := {
  paused : bool;
  cap : nat;
  size : Q;
  delta : Q;
}.

Definition tick (t : Tick) (s : State) : State :=
  loop (paused t) (cap t) (size t) (delta t) s.

Definition run (ts : list Tick) (s : State) : State :=
  foldl (λ s t, tick t s) s ts.

(** The [step] operation that an unpaused tick is expected to send. *)
Definition step_of (t : Tick) : option WorkerOp :=
  if paused t then None else Some (OpStep (cap t) (size t) (0 + delta t)).

End Ticks.

(** ** Collision events on the render side (src/unnamed/part_000) *)

Module Events.
Import Provider.

(** The [data] of a [collide] event: identities, and the parts that the
    handler passes through untouched. *)
Record CollideEvent := {
  ce_body : string;
  ce_target : string;
  ce_bi : string;
  ce_bj : string;
  ce_contactRest : JVal;
  ce_rest : JVal;
}.

(** What a collision callback is handed: every identity replaced by the
    handle that [refs] has for it ([None] for [undefined]). *)
Inductive Payload :=
  | Collided (body target bi bj : option nat) (contactRest rest : JVal)
  | CollideBegan (body target : option nat)
  | CollideEnded (body target : option nat).

(** [refs[id]] *)
Definition handle_of (s : State) (id : string) : option nat := table_get (refs s) id.

(** [collideHandler]: the callbacks it invokes, in order, with their
    arguments.  The handlers read the tables and change nothing. *)
Definition collideHandler (e : CollideEvent) (s : State) : list (Callback * Payload) :=
  match events s !! ce_target e ≫= collide with
  | Some cb =>
      [(cb, Collided (handle_of s (ce_body e)) (handle_of s (ce_target e))
              (handle_of s (ce_bi e)) (handle_of s (ce_bj e))
              (ce_contactRest e) (ce_rest e))]
  | None => []
  end.

(** [collideBeginHandler] *)
Definition collideBeginHandler (bodyA bodyB : string) (s : State) : list (Callback * Payload) :=
  match events s !! bodyA ≫= collideBegin with
  | Some cbA => [(cbA, CollideBegan (handle_of s bodyB) (handle_of s bodyA))]
  | None => []
  end ++
  match events s !! bodyB ≫= collideBegin with
  | Some cbB => [(cbB, CollideBegan (handle_of s bodyA) (handle_of s bodyB))]
  | None => []
  end.

(** [collideEndHandler] *)
Definition collideEndHandler (bodyA bodyB : string) (s : State) : list (Callback * Payload) :=
  match events s !! bodyA ≫= collideEnd with
  | Some cbA => [(cbA, CollideEnded (handle_of s bodyB) (handle_of s bodyA))]
  | None => []
  end ++
  match events s !! bodyB ≫= collideEnd with
  | Some cbB => [(cbB, CollideEnded (handle_of s bodyA) (handle_of s bodyB))]
  | None => []
  end.

(** The event record that [setupCollision] installs for given props. *)
Definition event_record (props : Hooks.BodyProps) : EventRecord :=
  {| collide := Hooks.onCollide props;
     collideBegin := Hooks.onCollideBegin props;
     collideEnd := Hooks.onCollideEnd props |}.

(** [o'] is the scene object [o] after some transforms were written: the
    same identity, scale and kind, as many replicas and as many slots. *)
Definition same_handle (o o' : Object3D) : Prop :=
  uuid o' = uuid o ∧ scale o' = scale o ∧
  match instances o, instances o' with
  | None, None => True
  | Some d, Some d' =>
      count d' = count d ∧ length (instanceMatrix d') = length (instanceMatrix d)
  | _, _ => False
  end.

(** A computation that, returning or throwing, leaves what was handed to
    the worker, the registry and the subscriptions as they were. *)
Definition steady {A} (m : Eff State A) : Prop :=
  ∀ s, sent (m s).1 = sent s ∧ bodies (m s).1 = bodies s ∧
       subscriptions (m s).1 = subscriptions s.

(** A value that [...v] and array destructuring accept. *)
Definition iterable (v : JVal) : Prop := ∃ l, spread v = Ok l.

End Events.

(** ** Invariants and expected outcomes *)

Module Invariants.
Import Provider.

(** Every live subscription id is below the counter. *)
Definition ids_below (s : State) : Prop :=
  ∀ id, is_Some (subscriptions s !! id) → id < incrementingId s.

(** The callback invocations that the observations of a frame owe to the
    subscription [id] of property [type] with callback [cb], in order. *)
Definition observed (id : nat) (type : string) (cb : Callback)
    (obs : list (nat * PropValue * string)) : list (nat * Callback * PropValue) :=
  omap (λ o, if decide (o.1.1 = id ∧ o.2 = type) then Some (id, cb, o.1.2) else None) obs.

(** The bodies of the world are distinct objects that the host allocated
    and still holds. *)
Definition well_formed (s : Worker.State) : Prop :=
  NoDup (Worker.world s) ∧
  (∀ l, l ∈ Worker.world s → l < Worker.next s) ∧
  (∀ l, l < Worker.next s → is_Some (Worker.store s !! l)).

(** An engine whose [removeBody], handed [undefined], removes at most. *)
Definition removes_only (engine : list nat → Res (list nat)) : Prop :=
  ∀ w w', engine w = Ok w' → sublist w' w.

(** The identity table is the one [syncBodies] builds from the world. *)
Definition synced (s : Worker.State) : Prop :=
  Worker.bodies s =
  foldl (λ acc l, <[Worker.uuid_at s l := l]> acc) ∅ (Worker.world s).

End Invariants.

(** * Theorems *)

(** ** The frame handler *)

Section FrameHandler.
Import Provider Session Spec.

(** An observation only ever extends the log of invoked callbacks. *)
Lemma observe_frame o s :
  heap (observe o s) = heap s ∧ refs (observe o s) = refs s ∧
  bodies (observe o s) = bodies s ∧
  subscriptions (observe o s) = subscriptions s ∧
  invalidations (observe o s) = invalidations s ∧
  sent (observe o s) = sent s ∧
  incrementingId (observe o s) = incrementingId s.
Proof.
  destruct o as [[id value] type]. unfold observe.
  destruct (default ∅ (subscriptions s !! id) !! type); done.
Qed.

Lemma observe_calls o s :
  calls (observe o s) = calls s ++ option_list (delivery (subscriptions s) o).
Proof.
  destruct o as [[id value] type]. unfold observe, delivery. simpl.
  destruct (subscriptions s !! id) as [sub|]; simpl.
  - destruct (sub !! type); simpl; [done | by rewrite app_nil_r].
  - rewrite lookup_empty. by rewrite app_nil_r.
Qed.

Lemma observations_frame obs s :
  let s' := foldl (λ s o, observe o s) s obs in
  heap s' = heap s ∧ refs s' = refs s ∧ bodies s' = bodies s ∧
  subscriptions s' = subscriptions s ∧ invalidations s' = invalidations s ∧
  sent s' = sent s ∧ incrementingId s' = incrementingId s.
Proof.
  revert s. induction obs as [|o obs IH]; intros s; simpl; [done |].
  specialize (IH (observe o s)). simpl in IH.
  destruct IH as (-> & -> & -> & -> & -> & -> & ->). apply observe_frame.
Qed.

Lemma observations_calls obs s :
  calls (foldl (λ s o, observe o s) s obs) =
  calls s ++ deliveries (subscriptions s) obs.
Proof.
  revert s. induction obs as [|o obs IH]; intros s; simpl.
  - by rewrite app_nil_r.
  - rewrite IH, observe_calls.
    destruct (observe_frame o s) as (_ & _ & _ & -> & _).
    rewrite <- app_assoc. f_equal.
    unfold deliveries. simpl. by destruct (delivery (subscriptions s) o).
Qed.

(** C3: a frame with [active = false] writes no transform and requests no
    redraw, whatever [shouldInvalidate] says: the store of scene objects
    (every handle matrix and every replica slot), the handle table and the
    count of [invalidate()] calls are what they were. *)
Theorem inactive_frame_writes_nothing shouldInvalidate uuids obs ps qs s :
  let s' := frameHandler shouldInvalidate
              {| active := false; fm_bodies := uuids; observations := obs;
                 positions := ps; quaternions := qs |} s in
  heap s' = heap s ∧ refs s' = refs s ∧ invalidations s' = invalidations s.
Proof.
  unfold frameHandler. simpl.
  pose proof (observations_frame obs
                (set_bodies (index_bodies (default [] uuids) 0) s)) as H.
  simpl in H. destruct H as (-> & -> & _ & _ & -> & _). done.
Qed.

Lemma frame_calls shouldInvalidate msg s :
  calls (frameHandler shouldInvalidate msg s) =
  calls s ++ deliveries (subscriptions s) (observations msg).
Proof.
  unfold frameHandler.
  set (s1 := set_bodies _ s).
  pose proof (observations_calls (observations msg) s1) as Hc.
  destruct (active msg); [destruct shouldInvalidate |]; simpl; apply Hc.
Qed.

(** C10: every observation of a frame whose id has a subscription of its
    type reaches that subscription's callback with its value, in order,
    and nothing else is invoked; the [active] flag plays no part. *)
Theorem observations_delivered_regardless_of_active shouldInvalidate msg s :
  calls (frameHandler shouldInvalidate msg s) =
    calls s ++ deliveries (subscriptions s) (observations msg) ∧
  ∀ id value type sub cb,
    (id, value, type) ∈ observations msg →
    subscriptions s !! id = Some sub → sub !! type = Some cb →
    (id, cb, value) ∈ calls (frameHandler shouldInvalidate msg s).
Proof.
  pose proof (frame_calls shouldInvalidate msg s) as Hcalls.
  split; [exact Hcalls |].
  intros id value type sub cb Hin Hsub Hcb. rewrite Hcalls.
  apply elem_of_app. right. unfold deliveries.
  apply list_elem_of_omap. exists (id, value, type). split; [done |].
  unfold delivery. simpl. by rewrite Hsub, Hcb.
Qed.

(** *** Subscriptions *)

Lemma frame_keeps_subscriptions shouldInvalidate msg s :
  subscriptions (frameHandler shouldInvalidate msg s) = subscriptions s ∧
  incrementingId (frameHandler shouldInvalidate msg s) = incrementingId s.
Proof.
  unfold frameHandler. set (s1 := set_bodies _ s).
  pose proof (observations_frame (observations msg) s1) as H. simpl in H.
  destruct H as (_ & _ & _ & Hs & _ & _ & Hi).
  destruct (active msg); [destruct shouldInvalidate |]; simpl; by rewrite ?Hs, ?Hi.
Qed.

Lemma deliveries_unrouted subs obs id :
  subs !! id = None → filter (λ c, c.1.1 = id) (deliveries subs obs) = [].
Proof.
  intros Hnone. induction obs as [|[[id' value] type] obs IH]; [done |].
  unfold deliveries in *. simpl. unfold delivery at 1. simpl.
  destruct (subs !! id') as [sub|] eqn:Hsub; [| done].
  destruct (sub !! type); [| done]. simpl.
  rewrite filter_cons_False; [done |]. simpl. intros ->. congruence.
Qed.

(** An id that is retired (no entry, and below the counter) stays retired,
    and nothing more is routed under it. *)
Lemma retired_id_stays id e s :
  subscriptions s !! id = None → id < incrementingId s →
  subscriptions (handle e s) !! id = None ∧ id < incrementingId (handle e s) ∧
  routed id (handle e s) = routed id s.
Proof.
  intros Hnone Hlt. destruct e as [ref type index target cb | id' | si msg | p n dt d]; simpl.
  - unfold Hooks.subscribe. simpl.
    destruct (Hooks.getUUID _ _ _) as [u|]; [destruct (decide (u = "")) |]; simpl;
      (split; [rewrite lookup_insert_ne; [done | lia] | split; [lia | done]]).
  - unfold Hooks.unsubscribe. simpl. split; [| done].
    destruct (decide (id' = id)) as [->|]; [apply lookup_delete_eq |].
    by rewrite lookup_delete_ne.
  - destruct (frame_keeps_subscriptions si msg s) as [-> ->].
    split; [done |]. split; [done |].
    unfold routed. rewrite frame_calls.
    rewrite filter_app, deliveries_unrouted; [| done]. by rewrite app_nil_r.
  - unfold loop. destruct p; done.
Qed.
End FrameHandler.

Section Subscriptions.
Import Provider Session Spec.

Lemma retired_id_run id later s :
  subscriptions s !! id = None → id < incrementingId s →
  subscriptions (run later s) !! id = None ∧ routed id (run later s) = routed id s.
Proof.
  revert s. induction later as [|e later IH]; intros s Hnone Hlt; simpl; [done |].
  destruct (retired_id_stays id e s Hnone Hlt) as (Hnone' & Hlt' & Hrouted).
  destruct (IH _ Hnone' Hlt') as [? ->]. done.
Qed.

(** C7: subscribe, then unsubscribe before any frame arrives.  Whatever
    happens later on the render side (frames carrying the id in their
    observations, other subscriptions and unsubscriptions, render ticks),
    no callback is ever invoked under the orphaned id: the id has no
    entry in the subscription table and is never handed out again. *)
Theorem orphaned_subscription_never_routed ref type index target cb later s :
  let id := (Hooks.subscribe ref type index target cb s).2 in
  let s2 := Hooks.unsubscribe id (Hooks.subscribe ref type index target cb s).1 in
  subscriptions (run later s2) !! id = None ∧
  routed id (run later s2) = routed id s.
Proof.
  simpl.
  set (s2 := Hooks.unsubscribe _ _).
  assert (subscriptions s2 !! incrementingId s = None) as Hnone.
  { unfold s2, Hooks.unsubscribe, Hooks.subscribe. simpl.
    destruct (Hooks.getUUID _ _ _) as [u|]; [destruct (decide (u = "")) |]; simpl;
      apply lookup_delete_eq. }
  assert (incrementingId s < incrementingId s2) as Hlt.
  { unfold s2, Hooks.unsubscribe, Hooks.subscribe. simpl.
    destruct (Hooks.getUUID _ _ _) as [u|]; [destruct (decide (u = "")) |]; simpl; lia. }
  assert (calls s2 = calls s) as Hcalls.
  { unfold s2, Hooks.unsubscribe, Hooks.subscribe. simpl.
    destruct (Hooks.getUUID _ _ _) as [u|]; [destruct (decide (u = "")) |]; done. }
  destruct (retired_id_run _ later s2 Hnone Hlt) as [H1 H2].
  split; [exact H1 |]. rewrite H2. unfold routed. by rewrite Hcalls.
Qed.
End Subscriptions.

(** ** Replicated handles *)

Section Replicas.
Import Provider Spec.

Variables (reg : gmap string Z) (ps qs : list Q) (base : string).

Lemma replicas_loop n d :
  let d' := foldl (frame_replica reg ps qs base) d (seq 0 n) in
  count d' = count d ∧ dynamicUsage d' = dynamicUsage d ∧
  version d' = version d + n ∧
  length (instanceMatrix d') = length (instanceMatrix d) ∧
  ∀ i, instanceMatrix d' !! i =
       if decide (i < n) then
         match reg !! replica_uuid base i with
         | Some ix => (λ _, replica_pose ps qs ix) <$> instanceMatrix d !! i
         | None => instanceMatrix d !! i
         end
       else instanceMatrix d !! i.
Proof.
  cbv zeta. induction n as [|n IH].
  - cbn [seq foldl]. split_and!; try lia; done.
  - rewrite seq_S, foldl_app. cbn [foldl Nat.add].
    set (dn := foldl _ d (seq 0 n)) in *.
    destruct IH as (Hc & Hu & Hv & Hlen & Hslots).
    unfold frame_replica.
    destruct (reg !! replica_uuid base n) as [ix|] eqn:Hix; cbn.
    + rewrite length_insert. split_and!; try done; try lia.
      intros i. destruct (decide (i = n)) as [->|Hne].
      * rewrite decide_True by lia. rewrite Hix.
        destruct (decide (n < length (instanceMatrix dn))) as [Hin|Hout].
        -- rewrite list_lookup_insert_eq by done.
           rewrite Hlen in Hin. apply lookup_lt_is_Some in Hin.
           destruct Hin as [m ->]. done.
        -- rewrite list_insert_ge by lia. rewrite Hslots.
           rewrite decide_False by lia.
           rewrite Hlen in Hout. rewrite lookup_ge_None_2 by lia. done.
      * rewrite list_lookup_insert_ne by done. rewrite Hslots.
        destruct (decide (i < n)); [by rewrite decide_True by lia |].
        by rewrite decide_False by lia.
    + split_and!; try done; try lia.
      intros i. rewrite Hslots.
      destruct (decide (i = n)) as [->|Hne].
      * rewrite decide_False by lia. rewrite decide_True by lia. by rewrite Hix.
      * destruct (decide (i < n)); [by rewrite decide_True by lia |].
        by rewrite decide_False by lia.
Qed.

Lemma passes_instanced k o d :
  uuid o = base → instances o = Some d →
  ∃ d', instances (Nat.iter k (frame_ref reg ps qs) o) = Some d' ∧
        uuid (Nat.iter k (frame_ref reg ps qs) o) = base ∧
        passed reg ps qs base d d' k.
Proof.
  intros Hu Hd. induction k as [|k IH]; simpl.
  - exists d. split; [done |]. split; [done |]. unfold passed.
    split_and!; [done | lia | done |]. intros i. rewrite decide_False by lia. done.
  - destruct IH as (dk & Hk & Huk & Hc & Hv & Hlen & Hslots).
    set (ok := Nat.iter k _ o) in *. clearbody ok.
    unfold frame_ref. rewrite Hk, Huk. simpl.
    eexists. split; [done |]. split; [done |].
    destruct (replicas_loop (count dk) dk) as (Hc' & _ & Hv' & Hlen' & Hslots').
    rewrite Hc in *.
    unfold passed. rewrite Hc', Hv', Hlen', Hv, Hlen.
    split_and!; [done | lia | done |].
    intros i. rewrite Hslots', Hslots.
    destruct (decide (i < count d)) as [Hi|Hi].
    + rewrite (decide_True (P := 0 < S k ∧ i < count d)) by (split; [lia | done]).
      destruct (reg !! replica_uuid base i) as [ix|] eqn:E;
        destruct (decide (0 < k ∧ i < count d)); try done;
        by destruct (instanceMatrix d !! i).
    + rewrite (decide_False (P := 0 < S k ∧ i < count d)) by lia.
      by rewrite decide_False by lia.
Qed.

(** The frame loop visits the handle at [l] once for each entry of the
    handle table that names it. *)
Lemma frame_refs_lookup handles h l :
  frame_refs reg ps qs handles h !! l =
  Nat.iter (length (filter (λ l', l' = l) handles)) (frame_ref reg ps qs) <$> h !! l.
Proof.
  revert h. induction handles as [|l' handles IH]; intros h; simpl.
  - by destruct (h !! l).
  - unfold frame_refs in *. simpl. rewrite IH. clear IH.
    destruct (decide (l' = l)) as [->|Hne].
    + rewrite filter_cons_True by done. simpl.
      destruct (h !! l) as [o|] eqn:Ho; simpl.
      * rewrite lookup_insert_eq. simpl. f_equal.
        generalize (length (filter (λ l', l' = l) handles)).
        intros k. induction k as [|k IHk]; simpl; [done | by rewrite IHk].
      * by rewrite Ho.
    + rewrite filter_cons_False by done.
      destruct (h !! l') as [o|]; [| done]. by rewrite lookup_insert_ne.
Qed.
End Replicas.

Section ReplicatedHandle.
Import Provider Spec.

Lemma frame_heap shouldInvalidate msg s :
  active msg = true →
  heap (frameHandler shouldInvalidate msg s) =
  frame_refs (index_bodies (default [] (fm_bodies msg)) 0 (bodies s))
    (positions msg) (quaternions msg) (table_values (refs s)) (heap s).
Proof.
  intros Hact. unfold frameHandler. rewrite Hact.
  set (s1 := set_bodies _ s).
  pose proof (observations_frame (observations msg) s1) as H. simpl in H.
  destruct H as (Hh & Hr & Hb & _).
  destruct shouldInvalidate; simpl; by rewrite Hh, Hr, Hb.
Qed.

(** C4, as the code has it: for an instanced handle with R replicas that
    all resolve in the registry, one active frame rewrites the R replica
    slots with the poses of their bodies and touches no other slot; the
    dirty flag is assigned inside the per-replica loop, so once per
    replica on each pass over the handle, and the loop passes over the
    handle once for every entry of the handle table naming it. *)
Theorem replicated_frame_writes_slots_marks_dirty_per_replica
    shouldInvalidate msg s l o d :
  active msg = true →
  heap s !! l = Some o → instances o = Some d →
  Forall (λ i, is_Some (index_bodies (default [] (fm_bodies msg)) 0 (bodies s)
                          !! replica_uuid (uuid o) i)) (seq 0 (count d)) →
  count d ≤ length (instanceMatrix d) →
  0 < handle_entries l s →
  ∃ o' d',
    heap (frameHandler shouldInvalidate msg s) !! l = Some o' ∧
    instances o' = Some d' ∧ count d' = count d ∧
    (∀ i, i < count d →
       ∃ ix, index_bodies (default [] (fm_bodies msg)) 0 (bodies s)
               !! replica_uuid (uuid o) i = Some ix ∧
             instanceMatrix d' !! i =
               Some (replica_pose (positions msg) (quaternions msg) ix)) ∧
    (∀ i, count d ≤ i → instanceMatrix d' !! i = instanceMatrix d !! i) ∧
    version d' = version d + handle_entries l s * count d.
Proof.
  intros Hact Ho Hd Hres Hroom Hreg.
  rewrite frame_heap by done. rewrite frame_refs_lookup, Ho. simpl.
  set (reg := index_bodies _ 0 (bodies s)) in *.
  destruct (passes_instanced reg (positions msg) (quaternions msg) (uuid o)
              (handle_entries l s) o d eq_refl Hd)
    as (d' & Hd' & _ & Hc & Hv & _ & Hslots).
  eexists _, d'. split; [done |]. split; [exact Hd' |].
  split_and!; [done | | | done].
  - intros i Hi. rewrite Forall_forall in Hres.
    destruct (Hres i) as [ix Hix]; [apply elem_of_seq; lia |].
    exists ix. split; [done |]. rewrite Hslots, Hix.
    rewrite decide_True by done.
    destruct (lookup_lt_is_Some_2 (instanceMatrix d) i) as [m ->]; [lia | done].
  - intros i Hi. rewrite Hslots. by rewrite decide_False by lia.
Qed.

Lemma replicated_frame_witness :
  ∃ d', Examples.replicas (frameHandler true (Examples.frame true (Some ["M/0"; "M/1"]))
                             Examples.mounted) = Some d' ∧
        version d' = 2 + 2 * 2.
Proof.
  destruct (replicated_frame_writes_slots_marks_dirty_per_replica true
              (Examples.frame true (Some ["M/0"; "M/1"])) Examples.mounted 0
              (Examples.object3D "M"
                 (Some {| count := 2;
                          instanceMatrix :=
                            [MLocal [JNum 0; JNum 0; JNum 0] [JNum 0; JNum 0; JNum 0] unit_scale;
                             MLocal [JNum 0; JNum 0; JNum 0] [JNum 0; JNum 0; JNum 0] unit_scale;
                             MIdentity];
                          version := 2; dynamicUsage := true |}))
              {| count := 2;
                 instanceMatrix :=
                   [MLocal [JNum 0; JNum 0; JNum 0] [JNum 0; JNum 0; JNum 0] unit_scale;
                    MLocal [JNum 0; JNum 0; JNum 0] [JNum 0; JNum 0; JNum 0] unit_scale;
                    MIdentity];
                 version := 2; dynamicUsage := true |})
    as (o' & d' & Ho' & Hd' & _ & _ & _ & Hv).
  - reflexivity.
  - vm_compute. reflexivity.
  - reflexivity.
  - repeat constructor; vm_compute; eauto.
  - simpl. lia.
  - vm_compute. lia.
  - exists d'. unfold Examples.replicas. rewrite Ho'. simpl. split; [exact Hd' |].
    exact Hv.
Defined.

(** C4 as the specification words it fails: with two replicas registered
    by [useSphere], one active frame bumps the version of the shared
    buffer four times, not once. *)
Lemma replicated_frame_not_marked_once :
  ∃ d d',
    Examples.replicas Examples.mounted = Some d ∧
    Examples.replicas (frameHandler true (Examples.frame true (Some ["M/0"; "M/1"]))
                         Examples.mounted) = Some d' ∧
    count d = 2 ∧ version d' = version d + 4 ∧ ¬ marked_dirty_once d d'.
Proof.
  eexists _, _. split; [vm_compute; reflexivity |].
  split; [vm_compute; reflexivity |].
  split; [reflexivity |]. split; [reflexivity |].
  unfold marked_dirty_once. simpl. lia.
Qed.
End ReplicatedHandle.

(** ** The registry *)

Section Registry.
Import Provider Spec.

Lemma indexOf_member ids u :
  u ∈ ids →
  (0 ≤ indexOf ids u < Z.of_nat (length ids))%Z ∧
  ids !! Z.to_nat (indexOf ids u) = Some u.
Proof.
  induction ids as [|v ids IH]; [by intros ?%elem_of_nil |].
  intros Hin. simpl. destruct (decide (v = u)) as [->|Hne].
  - split; [lia | done].
  - apply elem_of_cons in Hin as [->|Hin]; [done |].
    destruct (IH Hin) as [Hrange Hlookup].
    destruct (Z.ltb_spec (indexOf ids u) 0); [lia |].
    split; [lia |].
    replace (Z.to_nat (1 + indexOf ids u)) with (S (Z.to_nat (indexOf ids u))) by lia.
    done.
Qed.

Lemma indexOf_position ids i u :
  NoDup ids → ids !! i = Some u → indexOf ids u = Z.of_nat i.
Proof.
  intros Hnd Hi.
  assert (u ∈ ids) as Hin by (eapply list_elem_of_lookup_2; done).
  destruct (indexOf_member ids u Hin) as [Hrange Hlookup].
  assert (Z.to_nat (indexOf ids u) = i) by (eapply NoDup_lookup; done).
  lia.
Qed.

Lemma sync_lookup ids u :
  sync ids !! u = if decide (u ∈ ids) then Some (indexOf ids u) else None.
Proof.
  unfold sync. generalize (indexOf ids). intros g.
  assert (∀ l (m : gmap string Z),
            foldl (λ acc id, <[id := g id]> acc) m l !! u =
            if decide (u ∈ l) then Some (g u) else m !! u) as Hfold.
  { induction l as [|v l IH]; intros m; simpl.
    - done.
    - rewrite IH. destruct (decide (u ∈ l)) as [Hin|Hout].
      + rewrite decide_True; [done | by apply elem_of_cons; right].
      + destruct (decide (v = u)) as [->|Hne].
        * rewrite decide_True by (apply elem_of_cons; by left).
          apply lookup_insert_eq.
        * rewrite decide_False.
          -- by rewrite lookup_insert_ne.
          -- intros [->|?]%elem_of_cons; done. }
  rewrite Hfold. by rewrite lookup_empty.
Qed.

Lemma index_bodies_other ids k (reg : gmap string Z) u :
  u ∉ ids → index_bodies ids k reg !! u = reg !! u.
Proof.
  revert k reg. induction ids as [|v ids IH]; intros k reg Hout; simpl; [done |].
  apply not_elem_of_cons in Hout as [Hne Hout].
  rewrite IH by done. by rewrite lookup_insert_ne.
Qed.

Lemma index_bodies_position ids k (reg : gmap string Z) i u :
  NoDup ids → ids !! i = Some u →
  index_bodies ids k reg !! u = Some (Z.of_nat (k + i)).
Proof.
  revert k reg i. induction ids as [|v ids IH]; intros k reg i Hnd Hi; [done |].
  apply NoDup_cons in Hnd as [Hv Hnd]. simpl.
  destruct i as [|i]; simpl in Hi.
  - injection Hi as ->. rewrite index_bodies_other by done.
    rewrite lookup_insert_eq. do 2 f_equal. lia.
  - rewrite (IH (S k) _ i) by done. do 2 f_equal. lia.
Qed.

Lemma frame_bodies shouldInvalidate msg s :
  bodies (frameHandler shouldInvalidate msg s) =
  index_bodies (default [] (fm_bodies msg)) 0 (bodies s).
Proof.
  unfold frameHandler. set (s1 := set_bodies _ s).
  pose proof (observations_frame (observations msg) s1) as H. simpl in H.
  destruct H as (_ & _ & Hb & _).
  destruct (active msg); [destruct shouldInvalidate |]; simpl; by rewrite Hb.
Qed.

(** C2, as the code has it.  For a body list without repeated identities:
    a [sync] rebuilds the registry into exactly the bijection from the
    listed identities onto [[0, n)], with no other entry; a frame's body
    list, applied in place, makes the registry a bijection onto [[0, n)]
    on the listed identities (every index below [n] is hit by exactly one
    of them).  In both cases the identity listed at position [i] maps to
    [i] itself. *)
Theorem registry_bijective_on_listed_identities ids shouldInvalidate msg s :
  NoDup ids → fm_bodies msg = Some ids →
  registry_bijection (bodies (onSync ids s)) ids ∧
  (∀ i u, ids !! i = Some u → bodies (onSync ids s) !! u = Some (Z.of_nat i)) ∧
  bijection_on (bodies (frameHandler shouldInvalidate msg s)) ids ∧
  (∀ i u, ids !! i = Some u →
     bodies (frameHandler shouldInvalidate msg s) !! u = Some (Z.of_nat i)).
Proof.
  intros Hnd Hmsg. split_and!.
  - simpl. split; [split_and! |].
    + intros u Hin. exists (indexOf ids u). rewrite sync_lookup.
      rewrite decide_True by done. split; [done |].
      by destruct (indexOf_member ids u Hin).
    + intros u v i Hu Hv. rewrite !sync_lookup, !decide_True by done.
      intros [= Hiu] [= Hiv].
      destruct (indexOf_member ids u Hu) as [_ Hlu].
      destruct (indexOf_member ids v Hv) as [_ Hlv].
      rewrite Hiu in Hlu. rewrite Hiv in Hlv. congruence.
    + intros i Hi.
      destruct (lookup_lt_is_Some_2 ids (Z.to_nat i)) as [u Hu]; [lia |].
      exists u. split; [by eapply list_elem_of_lookup_2 |].
      rewrite sync_lookup, decide_True by (by eapply list_elem_of_lookup_2).
      rewrite (indexOf_position ids (Z.to_nat i) u) by done. f_equal. lia.
    + intros u Hout. by rewrite sync_lookup, decide_False.
  - intros i u Hi. simpl. rewrite sync_lookup.
    rewrite decide_True by (by eapply list_elem_of_lookup_2).
    by rewrite (indexOf_position ids i u).
  - rewrite frame_bodies, Hmsg. simpl. split_and!.
    + intros u Hin. apply list_elem_of_lookup_1 in Hin as [i Hi].
      exists (Z.of_nat i). rewrite (index_bodies_position ids 0 _ i u) by done.
      split; [done |]. apply lookup_lt_Some in Hi. lia.
    + intros u v i Hu Hv.
      apply list_elem_of_lookup_1 in Hu as [iu Hiu].
      apply list_elem_of_lookup_1 in Hv as [iv Hiv].
      rewrite (index_bodies_position ids 0 _ iu u) by done.
      rewrite (index_bodies_position ids 0 _ iv v) by done.
      intros [= <-] [= Heq]. assert (iu = iv) as -> by lia. congruence.
    + intros i Hi.
      destruct (lookup_lt_is_Some_2 ids (Z.to_nat i)) as [u Hu]; [lia |].
      exists u. split; [by eapply list_elem_of_lookup_2 |].
      rewrite (index_bodies_position ids 0 _ (Z.to_nat i) u) by done.
      f_equal. lia.
  - intros i u Hi. rewrite frame_bodies, Hmsg. simpl.
    by rewrite (index_bodies_position ids 0 _ i u).
Qed.

Lemma registry_bijective_witness :
  registry_bijection
    (bodies (onSync ["A"; "B"] Examples.empty)) ["A"; "B"] ∧
  (∀ i u, ["A"; "B"] !! i = Some u →
     bodies (onSync ["A"; "B"] Examples.empty) !! u = Some (Z.of_nat i)) ∧
  bijection_on
    (bodies (frameHandler true (Examples.frame true (Some ["A"; "B"])) Examples.empty))
    ["A"; "B"] ∧
  (∀ i u, ["A"; "B"] !! i = Some u →
     bodies (frameHandler true (Examples.frame true (Some ["A"; "B"])) Examples.empty) !! u
     = Some (Z.of_nat i)).
Proof.
  apply (registry_bijective_on_listed_identities ["A"; "B"] true
           (Examples.frame true (Some ["A"; "B"])) Examples.empty).
  - apply (bool_decide_unpack (NoDup ["A"; "B"])). vm_compute. exact I.
  - reflexivity.
Defined.

(** C2 as the specification words it fails, twice.  After adding A and B
    and removing A, the host's body list is [B], but the registry kept by
    the frame handler still maps the removed A (to index 0, as it maps B).
    And when one identity is added twice, the body list is [A; A]: the
    rebuilt registry has the single entry A ↦ 0 and index 1 is not hit. *)
Lemma registry_not_bijective :
  let removed := Examples.host [Worker.AddBody "A" "Plane" Examples.plain;
                               Worker.AddBody "B" "Plane" Examples.plain;
                               Worker.RemoveBody "A"] in
  let twice := Examples.host [Worker.AddBody "A" "Plane" Examples.plain;
                             Worker.AddBody "A" "Plane" Examples.plain] in
  (Worker.world_uuids removed = ["B"] ∧
   ¬ registry_bijection
       (bodies (Examples.after_frames (Worker.outbox removed)))
       (Worker.world_uuids removed)) ∧
  (Worker.world_uuids twice = ["A"; "A"] ∧
   ¬ registry_bijection
       (bodies (Examples.after_syncs (Worker.outbox twice)))
       (Worker.world_uuids twice)).
Proof.
  cbv zeta. split; (split; [vm_compute; reflexivity |]).
  - intros [_ Hclean].
    assert (Worker.world_uuids
              (Examples.host [Worker.AddBody "A" "Plane" Examples.plain;
                              Worker.AddBody "B" "Plane" Examples.plain;
                              Worker.RemoveBody "A"]) = ["B"]) as Hw
      by (vm_compute; reflexivity).
    rewrite Hw in Hclean. specialize (Hclean "A").
    assert ("A" ∉ ["B"]) as Hout by (intros [=]%list_elem_of_singleton).
    specialize (Hclean Hout). vm_compute in Hclean. discriminate.
  - intros [(_ & _ & Hsurj) _].
    assert (Worker.world_uuids
              (Examples.host [Worker.AddBody "A" "Plane" Examples.plain;
                              Worker.AddBody "A" "Plane" Examples.plain]) = ["A"; "A"]) as Hw
      by (vm_compute; reflexivity).
    rewrite Hw in Hsurj. destruct (Hsurj 1%Z) as (u & Hu & Hlookup); [simpl; lia |].
    assert (u = "A") as ->.
    { apply elem_of_cons in Hu as [->|Hu]; [done |].
      by apply list_elem_of_singleton in Hu. }
    vm_compute in Hlookup. discriminate.
Qed.
End Registry.

(** ** The step operation *)

Section StepOperation.
Import Worker HostStep Spec.

Variable E : Engine.

Lemma lookup_insert_slot {A} (l : list A) i j x :
  <[i := x]> l !! j = if decide (i = j) then (λ _, x) <$> l !! j else l !! j.
Proof.
  destruct (decide (i = j)) as [->|Hne]; [| by apply list_lookup_insert_ne].
  destruct (l !! j) as [y|] eqn:Hj; simpl.
  - apply list_lookup_insert_eq. by eapply lookup_lt_Some.
  - apply lookup_ge_None. rewrite length_insert. by apply lookup_ge_None.
Qed.

(** One turn of the loop, on buffers that are there. *)
Lemma write_body_spec st i l b ps qs :
  st !! l = Some b →
  ∃ ps' qs',
    write_body E st i l (Some ps, Some qs) = ((Some ps', Some qs'), Ok tt) ∧
    length ps' = length ps ∧ length qs' = length qs ∧
    (∀ k, k < 3 * i ∨ 3 * i + 3 ≤ k → ps' !! k = ps !! k) ∧
    (∀ k, k < 4 * i ∨ 4 * i + 4 ≤ k → qs' !! k = qs !! k) ∧
    ps' !! (3 * i + 0) = (λ _, fround E (position b).1.1) <$> ps !! (3 * i + 0) ∧
    ps' !! (3 * i + 1) = (λ _, fround E (position b).1.2) <$> ps !! (3 * i + 1) ∧
    ps' !! (3 * i + 2) = (λ _, fround E (position b).2) <$> ps !! (3 * i + 2) ∧
    qs' !! (4 * i + 0) =
      (λ _, fround E (components E (quaternion b)).1.1.1) <$> qs !! (4 * i + 0) ∧
    qs' !! (4 * i + 1) =
      (λ _, fround E (components E (quaternion b)).1.1.2) <$> qs !! (4 * i + 1) ∧
    qs' !! (4 * i + 2) =
      (λ _, fround E (components E (quaternion b)).1.2) <$> qs !! (4 * i + 2) ∧
    qs' !! (4 * i + 3) =
      (λ _, fround E (components E (quaternion b)).2) <$> qs !! (4 * i + 3).
Proof.
  intros Hb. unfold write_body. rewrite Hb.
  unfold bind, set_position_slot, set_quaternion_slot. cbn [fst snd].
  eexists _, _. split; [reflexivity |].
  rewrite !length_insert.
  split; [done |]. split; [done |].
  split_and!; try intros k Hk; rewrite !lookup_insert_slot;
    repeat case_decide; try lia; try done;
    by destruct (_ !! _).
Qed.

(** The loop over the bodies of the world. *)
Lemma write_loop st w i0 ps qs :
  (∀ l, l ∈ w → is_Some (st !! l)) →
  ∃ ps' qs',
    for_from i0 w (write_body E st) (Some ps, Some qs) = ((Some ps', Some qs'), Ok tt) ∧
    length ps' = length ps ∧ length qs' = length qs ∧
    (∀ k, k < 3 * i0 ∨ 3 * (i0 + length w) ≤ k → ps' !! k = ps !! k) ∧
    (∀ k, k < 4 * i0 ∨ 4 * (i0 + length w) ≤ k → qs' !! k = qs !! k) ∧
    ∀ j l b, w !! j = Some l → st !! l = Some b →
      ps' !! (3 * (i0 + j) + 0) =
        (λ _, fround E (position b).1.1) <$> ps !! (3 * (i0 + j) + 0) ∧
      ps' !! (3 * (i0 + j) + 1) =
        (λ _, fround E (position b).1.2) <$> ps !! (3 * (i0 + j) + 1) ∧
      ps' !! (3 * (i0 + j) + 2) =
        (λ _, fround E (position b).2) <$> ps !! (3 * (i0 + j) + 2) ∧
      qs' !! (4 * (i0 + j) + 0) =
        (λ _, fround E (components E (quaternion b)).1.1.1) <$> qs !! (4 * (i0 + j) + 0) ∧
      qs' !! (4 * (i0 + j) + 1) =
        (λ _, fround E (components E (quaternion b)).1.1.2) <$> qs !! (4 * (i0 + j) + 1) ∧
      qs' !! (4 * (i0 + j) + 2) =
        (λ _, fround E (components E (quaternion b)).1.2) <$> qs !! (4 * (i0 + j) + 2) ∧
      qs' !! (4 * (i0 + j) + 3) =
        (λ _, fround E (components E (quaternion b)).2) <$> qs !! (4 * (i0 + j) + 3).
Proof.
  revert i0 ps qs. induction w as [|l w IH]; intros i0 ps qs Hst.
  - exists ps, qs. simpl. split_and!; try done.
  - destruct (Hst l) as [b Hb]; [by left |].
    destruct (write_body_spec st i0 l b ps qs Hb)
      as (ps1 & qs1 & Hrun1 & Hlp1 & Hlq1 & Hpo1 & Hqo1 & Hp0 & Hp1 & Hp2
          & Hq0 & Hq1 & Hq2 & Hq3).
    destruct (IH (S i0) ps1 qs1) as (ps' & qs' & Hrun & Hlp & Hlq & Hpo & Hqo & Hin).
    { intros l' Hl'. apply Hst. by right. }
    exists ps', qs'. cbn [for_from]. unfold bind at 1. rewrite Hrun1, Hrun.
    split; [done |]. split; [congruence |]. split; [congruence |].
    cbn [length]. split_and!.
    + intros k Hk. rewrite Hpo by lia. apply Hpo1. lia.
    + intros k Hk. rewrite Hqo by lia. apply Hqo1. lia.
    + intros j l' b' Hj Hb'. destruct j as [|j]; simpl in Hj.
      * injection Hj as <-. rewrite Hb in Hb'. injection Hb' as <-.
        replace (i0 + 0) with i0 by lia.
        rewrite !Hpo, !Hqo by lia. split_and!; assumption.
      * destruct (Hin j l' b' Hj Hb') as (Ip0 & Ip1 & Ip2 & Iq0 & Iq1 & Iq2 & Iq3).
        replace (i0 + S j) with (S i0 + j) by lia.
        rewrite Ip0, Ip1, Ip2, Iq0, Iq1, Iq2, Iq3.
        rewrite !Hpo1, !Hqo1 by lia. split_and!; reflexivity.
Qed.

End StepOperation.

Section StepScenarios.
Import Worker HostStep Spec.

End StepScenarios.

(** ** The host *)

Section Host.
Import Worker Spec.

Variable engine : list nat → Res (list nat).

Lemma shapes_for_unknown type args :
  type ∉ vocabulary → shapes_for type args = Ok [].
Proof.
  intros Hout. unfold shapes_for.
  repeat (rewrite decide_False;
          [| intros ->; apply Hout; unfold vocabulary; set_solver]).
  done.
Qed.

Lemma index3_array l :
  index3 (JArr l) =
  Ok (default JUndef (l !! 0), default JUndef (l !! 1), default JUndef (l !! 2)).
Proof. reflexivity. Qed.

Lemma index3_typed d v :
  pose_typed v → ∃ p, index3 (default_arg (JArr d) v) = Ok p.
Proof. intros [-> | [l ->]]; simpl; eauto. Qed.

Lemma syncBodies_spec s :
  ∃ s', syncBodies s = (s', Ok tt) ∧
        store s' = store s ∧ world s' = world s ∧ next s' = next s ∧
        outbox s' = outbox s ++ [Sync (world_uuids s)] ∧
        bodies s' = foldl (λ acc l, <[uuid_at s l := l]> acc) ∅ (world s).
Proof. eexists. split; [reflexivity |]. done. Qed.

Lemma addBody_unknown id type props sync s :
  type ∉ vocabulary →
  pose_typed (bp_position props) → pose_typed (bp_rotation props) →
  ∃ s' p r,
    addBody id type props sync s = (s', Ok tt) ∧
    index3 (default_arg (JArr [JNum 0; JNum 0; JNum 0]) (bp_position props)) = Ok p ∧
    index3 (default_arg (JArr [JNum 0; JNum 0; JNum 0]) (bp_rotation props)) = Ok r ∧
    store s' = <[next s := inert id props p r]> (store s) ∧
    next s' = S (next s) ∧
    world s' = world s ++ [next s] ∧
    outbox s' = (if sync then outbox s ++ [Sync (world_uuids s')] else outbox s).
Proof.
  intros Htype Hp Hr.
  destruct (index3_typed [JNum 0; JNum 0; JNum 0] _ Hp) as [p Hp'].
  destruct (index3_typed [JNum 0; JNum 0; JNum 0] _ Hr) as [r Hr'].
  unfold addBody, bind, new_body, lift, update_body, world_addBody, modify, ret.
  rewrite (shapes_for_unknown type _ Htype). simpl.
  rewrite Hp'. simpl. rewrite Hr'. simpl.
  assert (alter (set_quaternion (QFromEuler r.1.1 r.1.2 r.2)) (next s)
            (alter (set_position p) (next s)
               (alter (λ b, b) (next s)
                  (<[next s := {| uuid := id; kinematic := truthy (isKinematic props);
                                  options := extra props; shapes := [];
                                  position := (JNum 0, JNum 0, JNum 0);
                                  quaternion := QIdentity |}]> (store s)))) =
          <[next s := inert id props p r]> (store s)) as Hstore.
  { apply map_eq. intros l. destruct (decide (l = next s)) as [->|Hne].
    - rewrite !lookup_alter_eq, !lookup_insert_eq. done.
    - rewrite !lookup_alter_ne, !lookup_insert_ne by done. done. }
  destruct sync.
  - eexists _, p, r. split; [reflexivity |]. simpl.
    split_and!; done.
  - eexists _, p, r. split; [reflexivity |]. simpl. split_and!; done.
Qed.

(** *** Batches *)

Lemma addBody_quiet id type props s s' :
  addBody id type props false s = (s', Ok tt) →
  ∃ b, uuid b = id ∧ store s' = <[next s := b]> (store s) ∧
       next s' = S (next s) ∧ world s' = world s ++ [next s] ∧
       outbox s' = outbox s ∧ bodies s' = bodies s.
Proof.
  unfold addBody, bind, new_body, lift, update_body, world_addBody, modify, ret.
  destruct (shapes_for type _) as [shs|e]; simpl; [| done].
  destruct (index3 (default_arg _ (bp_position props))) as [p|e]; simpl; [| done].
  destruct (index3 (default_arg _ (bp_rotation props))) as [r|e]; simpl; [| done].
  intros [= <-]. simpl.
  exists (set_quaternion (QFromEuler r.1.1 r.1.2 r.2)
            (set_position p
               (foldl (λ b sh, addShape sh b)
                  {| uuid := id; kinematic := truthy (isKinematic props);
                     options := extra props; shapes := [];
                     position := (JNum 0, JNum 0, JNum 0);
                     quaternion := QIdentity |} shs))).
  split_and!; try done.
  - simpl.
    assert (∀ shs b, uuid (foldl (λ b sh, addShape sh b) b shs) = uuid b) as H.
    { clear. induction shs as [|sh shs IH]; intros b; simpl; [done | by rewrite IH]. }
    by rewrite H.
  - apply map_eq. intros l. destruct (decide (l = next s)) as [->|Hne].
    + rewrite !lookup_alter_eq, !lookup_insert_eq. done.
    + rewrite !lookup_alter_ne, !lookup_insert_ne by done. done.
Qed.

Lemma world_uuids_extend s s' b :
  allocated s → store s' = <[next s := b]> (store s) →
  world s' = world s ++ [next s] →
  world_uuids s' = world_uuids s ++ [uuid b].
Proof.
  intros Hwf Hstore Hworld. unfold world_uuids, uuid_at.
  rewrite Hworld, Hstore, fmap_app. simpl. rewrite lookup_insert_eq. simpl.
  f_equal. apply list_fmap_ext. intros i l Hl.
  rewrite lookup_insert_ne; [done |].
  assert (l < next s) by (apply Hwf; by eapply list_elem_of_lookup_2). lia.
Qed.

Lemma addBodies_loop type (props : list BodyProps) ids i s s' :
  for_from i ids
    (λ i id, match props !! i with
             | Some p => addBody id type p false
             | None => throw (TypeError "cannot destructure undefined")
             end) s = (s', Ok tt) →
  allocated s →
  allocated s' ∧ outbox s' = outbox s ∧
  world s' = world s ++ seq (next s) (length ids) ∧
  world_uuids s' = world_uuids s ++ ids.
Proof.
  revert i s. induction ids as [|id ids IH]; intros i s; simpl.
  - unfold ret. intros [= <-] Hwf. by rewrite !app_nil_r.
  - unfold bind at 1.
    destruct (props !! i) as [p|]; [| done].
    destruct (addBody id type p false s) as [s1 [[]|e]] eqn:Hadd; [| done].
    intros Hrest Hwf.
    destruct (addBody_quiet _ _ _ _ _ Hadd) as (b & Hb & Hstore & Hnext & Hworld & Hout & _).
    assert (allocated s1) as Hwf1.
    { intros l. rewrite Hworld, Hnext.
      intros [Hl| ->%list_elem_of_singleton]%elem_of_app; [| lia].
      specialize (Hwf l Hl). lia. }
    destruct (IH _ _ Hrest Hwf1) as (Hwf' & Hout' & Hworld' & Huuids').
    split_and!; [done | congruence | |].
    + rewrite Hworld', Hworld, Hnext, <- app_assoc. done.
    + rewrite Huuids', (world_uuids_extend s s1 b) by done.
      rewrite Hb, <- app_assoc. done.
Qed.

(** A batched add publishes one [sync], after the whole batch: it lists
    the identities that were there followed by those of the batch, in
    insertion order. *)
Lemma addBodies_single_sync ids type props sync s s' :
  task engine (AddBodies ids type props) sync s = (s', Ok tt) →
  allocated s →
  outbox s' = outbox s ++ [Sync (world_uuids s ++ ids)] ∧
  world_uuids s' = world_uuids s ++ ids.
Proof.
  simpl. unfold bind at 1.
  destruct (for_from 0 ids _ s) as [s1 [[]|e]] eqn:Hloop; [| done].
  intros Hsync Hwf.
  destruct (addBodies_loop _ _ _ _ _ _ Hloop Hwf) as (_ & Hout & _ & Huuids).
  destruct (syncBodies_spec s1) as (s2 & Hs2 & Hst & Hw & _ & Hout2 & _).
  rewrite Hs2 in Hsync. injection Hsync as <-.
  split; [by rewrite Hout2, Hout, Huuids |].
  unfold world_uuids, uuid_at in *. by rewrite Hst, Hw.
Qed.

Lemma removeBody_publishes id s s' :
  removeBody engine id true s = (s', Ok tt) →
  outbox s' = outbox s ++ [Sync (world_uuids s')].
Proof.
  unfold removeBody, bind, get, world_removeBody.
  destruct (bodies s !! id) as [l|].
  - intros [= <-]. done.
  - destruct (engine (world s)) as [w|e]; [| done]. intros [= <-]. done.
Qed.

Lemma removeBodies_loop ids s s' :
  for_each ids (λ id, removeBody engine id true) s = (s', Ok tt) →
  ∃ published, outbox s' = outbox s ++ published ∧ length published = length ids.
Proof.
  revert s. induction ids as [|id ids IH]; intros s; simpl.
  - unfold ret. intros [= <-]. exists []. by rewrite app_nil_r.
  - unfold bind at 1.
    destruct (removeBody engine id true s) as [s1 [[]|e]] eqn:Hrm; [| done].
    intros Hrest. destruct (IH _ Hrest) as (published & Hout & Hlen).
    apply removeBody_publishes in Hrm.
    exists (Sync (world_uuids s1) :: published). split; [| simpl; lia].
    rewrite Hout, Hrm, <- app_assoc. done.
Qed.

(** C5, the removal half, as the code has it: [removeBodies] calls
    [task] for each member without passing [sync = false], so every
    member publishes a [sync] of its own, and one more follows the batch. *)
Theorem removeBodies_publishes_per_member ids sync s s' :
  task engine (RemoveBodies ids) sync s = (s', Ok tt) →
  ∃ published,
    outbox s' = outbox s ++ published ++ [Sync (world_uuids s')] ∧
    length published = length ids.
Proof.
  simpl. unfold bind at 1.
  destruct (for_each ids _ s) as [s1 [[]|e]] eqn:Hloop; [| done].
  intros Hsync.
  destruct (removeBodies_loop _ _ _ Hloop) as (published & Hout & Hlen).
  destruct (syncBodies_spec s1) as (s2 & Hs2 & Hst & Hw & _ & Hout2 & _).
  rewrite Hs2 in Hsync. injection Hsync as <-.
  exists published. split; [| done].
  rewrite Hout2, Hout, <- app_assoc. unfold world_uuids, uuid_at. by rewrite Hst, Hw.
Qed.

Lemma addBodies_unknown_loop type (props : list BodyProps) ids i s :
  type ∉ vocabulary → Forall props_typed props →
  i + length ids ≤ length props →
  ∃ s',
    for_from i ids
      (λ i id, match props !! i with
               | Some p => addBody id type p false
               | None => throw (TypeError "cannot destructure undefined")
               end) s = (s', Ok tt) ∧
    next s' = next s + length ids ∧
    (∀ l, l < next s → store s' !! l = store s !! l) ∧
    (∀ j id, ids !! j = Some id →
       ∃ b, store s' !! (next s + j) = Some b ∧ uuid b = id ∧ shapes b = []).
Proof.
  intros Htype Htyped. revert i s.
  induction ids as [|id ids IH]; intros i s Hlen; simpl in *.
  - exists s. unfold ret. split_and!; [done | lia | done | done].
  - destruct (lookup_lt_is_Some_2 props i) as [p Hp]; [lia |].
    assert (props_typed p) as [Hpos Hrot].
    { rewrite Forall_forall in Htyped. apply Htyped.
      by eapply list_elem_of_lookup_2. }
    destruct (addBody_unknown id type p false s Htype Hpos Hrot)
      as (s1 & pp & rr & Hrun & _ & _ & Hstore & Hnext & _ & _).
    destruct (IH (S i) s1) as (s' & Hloop & Hnext' & Hold & Hnew); [lia |].
    exists s'. unfold bind at 1. rewrite Hp, Hrun. split; [exact Hloop |].
    split_and!.
    + lia.
    + intros l Hl. rewrite Hold by lia. rewrite Hstore.
      apply lookup_insert_ne. lia.
    + intros [|j] id' Hj; simpl in Hj.
      * injection Hj as <-. rewrite Nat.add_0_r, Hold by lia.
        rewrite Hstore, lookup_insert_eq. eauto.
      * destruct (Hnew j id' Hj) as (b & Hb & Hu & Hsh).
        exists b. split; [| done].
        replace (next s + S j) with (next s1 + j) by lia. done.
Qed.


(** *** Operations on an identity the table does not have *)

(** C6, as the code has it.  [setPosition] and [setRotation] on an
    identity missing from the table change nothing (world, bodies, table
    and outbox are what they were) but are not silent: reading a property
    of the missing entry throws.  [removeBody] hands the missing entry to
    the engine: when the engine ignores it, the world and every body are
    unchanged and a [sync] is republished; when the engine throws, so
    does the operation, with nothing changed. *)
Theorem unknown_identity_mutation_throws id props sync s :
  bodies s !! id = None →
  task engine (SetPosition id props) sync s =
    (s, Throw (TypeError "cannot read properties of undefined")) ∧
  task engine (SetRotation id props) sync s =
    (s, Throw (TypeError "cannot read properties of undefined")) ∧
  (engine (world s) = Ok (world s) →
   ∃ s', task engine (RemoveBody id) true s = (s', Ok tt) ∧
         world s' = world s ∧ store s' = store s ∧
         outbox s' = outbox s ++ [Sync (world_uuids s)]) ∧
  (∀ e, engine (world s) = Throw e →
        task engine (RemoveBody id) sync s = (s, Throw e)).
Proof.
  intros Hnone. split_and!.
  - cbn. unfold bind, body_of, get. cbn. rewrite Hnone. reflexivity.
  - cbn. unfold bind, body_of, get. cbn. rewrite Hnone. reflexivity.
  - intros Heng. simpl.
    unfold removeBody, bind, get, world_removeBody. rewrite Hnone, Heng.
    eexists. split; [reflexivity |]. simpl. split_and!; done.
  - intros e Heng. simpl.
    unfold removeBody, bind, get, world_removeBody. by rewrite Hnone, Heng.
Qed.
End Host.

Section HostScenarios.
Import Worker Spec.


(** The world of the scenarios: A, B and C added in one batch. *)
Lemma batch_of_three_one_sync :
  outbox (Examples.host [AddBodies ["A"; "B"; "C"] "Plane"
                           [Examples.plain; Examples.plain; Examples.plain]]) =
  [Sync ["A"; "B"; "C"]].
Proof. vm_compute. reflexivity. Qed.

(** Removing A and B in one batch publishes three syncs: one after each
    member, and one after the batch. *)
Lemma removeBodies_three_syncs :
  outbox (Examples.host [AddBodies ["A"; "B"; "C"] "Plane"
                           [Examples.plain; Examples.plain; Examples.plain];
                         RemoveBodies ["A"; "B"]]) =
  [Sync ["A"; "B"; "C"]; Sync ["B"; "C"]; Sync ["C"]; Sync ["C"]].
Proof. vm_compute. reflexivity. Qed.

Lemma removeBodies_witness :
  let s := Examples.host [AddBodies ["A"; "B"; "C"] "Plane"
                            [Examples.plain; Examples.plain; Examples.plain]] in
  let s' := onmessage Examples.lenient (RemoveBodies ["A"; "B"]) s in
  ∃ published,
    outbox s' = outbox s ++ published ++ [Sync (world_uuids s')] ∧
    length published = 2.
Proof.
  cbv zeta.
  apply (removeBodies_publishes_per_member Examples.lenient ["A"; "B"] true).
  vm_compute. reflexivity.
Defined.

(** C6 as the specification words it fails: with A in the world,
    [setPosition] on an identity the table does not have is not a silent
    no-op, it throws. *)
Lemma unknown_identity_not_silent :
  let s := Examples.host [AddBody "A" "Plane" Examples.plain] in
  bodies s !! "ghost" = None ∧
  ¬ silent_noop (task Examples.lenient
                   (SetPosition "ghost" (JArr [JNum 1; JNum 2; JNum 3])) true) s.
Proof.
  cbv zeta. split; [vm_compute; reflexivity |].
  unfold silent_noop. intros H.
  assert ((task Examples.lenient (SetPosition "ghost" (JArr [JNum 1; JNum 2; JNum 3])) true
             (Examples.host [AddBody "A" "Plane" Examples.plain])).2 = Ok tt) as H2
    by (by rewrite H).
  vm_compute in H2. discriminate.
Qed.

Lemma unknown_identity_witness :
  let s := Examples.host [AddBody "A" "Plane" Examples.plain] in
  task Examples.lenient (SetPosition "ghost" (JArr [])) true s =
    (s, Throw (TypeError "cannot read properties of undefined")) ∧
  task Examples.lenient (SetRotation "ghost" (JArr [])) true s =
    (s, Throw (TypeError "cannot read properties of undefined")) ∧
  (Examples.lenient (world s) = Ok (world s) →
   ∃ s', task Examples.lenient (RemoveBody "ghost") true s = (s', Ok tt) ∧
         world s' = world s ∧ store s' = store s ∧
         outbox s' = outbox s ++ [Sync (world_uuids s)]) ∧
  (∀ e, Examples.lenient (world s) = Throw e →
        task Examples.lenient (RemoveBody "ghost") true s = (s, Throw e)).
Proof.
  cbv zeta.
  apply (unknown_identity_mutation_throws Examples.lenient "ghost" (JArr []) true).
  vm_compute. reflexivity.
Defined.
End HostScenarios.

(** ** The shape constructors *)

Section ShapeConstructors.
Import Provider Hooks Spec.

Lemma quiet_bind {A B} (m : Eff State A) (k : A → Eff State B) :
  quiet m → (∀ a, quiet (k a)) → quiet (bind m k).
Proof.
  intros Hm Hk s. unfold bind. specialize (Hm s).
  destruct (m s) as [s1 [a|e]]; simpl in *; [| done].
  by rewrite (Hk a s1).
Qed.

Lemma quiet_lift {A} (r : Res A) : quiet (lift r).
Proof. by intros s. Qed.

Lemma quiet_update_object l f : quiet (update_object l f).
Proof.
  intros s. unfold update_object.
  destruct (heap s !! l) as [o|]; done.
Qed.

Lemma quiet_register_body fn argsFn l inst i id :
  quiet (register_body fn argsFn l inst i id).
Proof.
  unfold register_body.
  repeat (apply quiet_bind; [| intros ?]);
    try apply quiet_lift; try apply quiet_update_object; try done.
  destruct inst; [apply quiet_bind; [apply quiet_lift | intros ?] |];
    apply quiet_update_object.
Qed.

Lemma quiet_map_from {A B} (f : nat → A → Eff State B) xs i :
  (∀ i x, quiet (f i x)) → quiet (map_from i f xs).
Proof.
  intros Hf. revert i. induction xs as [|x xs IH]; intros i; simpl; [done |].
  apply quiet_bind; [apply Hf | intros y].
  apply quiet_bind; [apply IH | done].
Qed.

Lemma map_from_throws {A B} (f : nat → A → Eff State B) xs i j x :
  xs !! j = Some x → throws (f (i + j) x) → throws (map_from i f xs).
Proof.
  revert i j. induction xs as [|y xs IH]; intros i j Hj Hthrow s; [done |].
  simpl. unfold bind at 1. destruct j as [|j]; simpl in Hj.
  - injection Hj as ->. rewrite Nat.add_0_r in Hthrow.
    destruct (Hthrow s) as (s' & e & ->). eauto.
  - destruct (f i y s) as [s1 [b|e]]; [| eauto].
    unfold bind at 1.
    replace (i + S j) with (S i + j) in Hthrow by lia.
    destruct (IH (S i) j Hj Hthrow s1) as (s' & e & ->). eauto.
Qed.

Lemma sphereArgs_rejects a :
  ¬ args_typed a → sphereArgs a = Throw (UserError "useSphere args must be an array").
Proof.
  intros Hbad. unfold sphereArgs.
  destruct a; simpl; try done; exfalso; apply Hbad; [by left | right; eauto].
Qed.

Lemma register_sphere_throws fn l inst i id :
  ¬ args_typed (args (fn i)) → throws (register_body fn sphereArgs l inst i id).
Proof.
  intros Hbad s. unfold register_body.
  rewrite (sphereArgs_rejects _ Hbad).
  unfold bind at 1.
  match goal with |- context [match ?m s with _ => _ end] => destruct (m s) as [s1 [[]|e]] end;
    [| eauto].
  unfold bind, modify, lift. simpl. eauto.
Qed.

Lemma prepare_typed o props :
  pose_typed (bp_position props) → pose_typed (bp_rotation props) →
  (prepare o props).2 = Ok tt.
Proof.
  intros [Hp | [lp Hp]] [Hr | [lr Hr]]; unfold prepare; rewrite Hp, Hr; done.
Qed.

(** With poses of the declared type, registering one replica gets as far
    as [argsFn], whose outcome is the outcome of the whole callback. *)
Lemma register_body_runs fn argsFn l inst i id s :
  is_Some (heap s !! l) →
  pose_typed (bp_position (fn i)) → pose_typed (bp_rotation (fn i)) →
  ∃ s1, register_body fn argsFn l inst i id s =
          (s1, match argsFn (args (fn i)) with
               | Ok a => Ok (serialize (fn i) a)
               | Throw e => Throw e
               end) ∧
        is_Some (heap s1 !! l) ∧ sent s1 = sent s.
Proof.
  intros [o Ho] Hp Hr. unfold register_body.
  destruct inst.
  - rewrite (prepare_typed temp (fn i) Hp Hr).
    unfold bind, lift, update_object, modify, ret. rewrite Ho. simpl.
    destruct (argsFn (args (fn i))) as [a|e]; simpl;
      (eexists; split; [reflexivity |]; simpl; split; [| done];
       rewrite lookup_insert_eq; eauto).
  - unfold bind, lift, update_object, modify, ret. rewrite Ho.
    rewrite (prepare_typed o (fn i) Hp Hr). simpl.
    destruct (argsFn (args (fn i))) as [a|e]; simpl;
      (eexists; split; [reflexivity |]; simpl; split; [| done];
       rewrite lookup_insert_eq; eauto).
Qed.

Lemma mount_loop_returns fn norm l inst ids k s :
  is_Some (heap s !! l) →
  (∀ j, j < length ids →
     pose_typed (bp_position (fn (k + j))) ∧ pose_typed (bp_rotation (fn (k + j)))) →
  ∃ s', map_from k (register_body fn (λ a, Ok (norm a)) l inst) ids s =
          (s', Ok ((λ j, serialize (fn j) (norm (args (fn j)))) <$> seq k (length ids))) ∧
        sent s' = sent s.
Proof.
  revert k s. induction ids as [|id ids IH]; intros k s Hl Hposes; simpl.
  - by exists s.
  - destruct (Hposes 0) as [Hp Hr]; [simpl; lia |]. rewrite Nat.add_0_r in Hp, Hr.
    destruct (register_body_runs fn (λ a, Ok (norm a)) l inst k id s Hl Hp Hr)
      as (s1 & Hrun & Hl1 & Hsent1).
    destruct (IH (S k) s1 Hl1) as (s' & Hloop & Hsent').
    { intros j Hj. replace (S k + j) with (k + S j) by lia. apply Hposes. simpl. lia. }
    exists s'. unfold bind at 1. rewrite Hrun. unfold bind at 1. rewrite Hloop.
    split; [done | congruence].
Qed.

Lemma mount_loop_first_throw fn argsFn l inst ids k i id e s :
  is_Some (heap s !! l) → ids !! i = Some id →
  (∀ j, j ≤ i →
     pose_typed (bp_position (fn (k + j))) ∧ pose_typed (bp_rotation (fn (k + j)))) →
  (∀ j, j < i → ∃ a, argsFn (args (fn (k + j))) = Ok a) →
  argsFn (args (fn (k + i))) = Throw e →
  ∃ s', map_from k (register_body fn argsFn l inst) ids s = (s', Throw e).
Proof.
  revert k i s. induction ids as [|id' ids IH]; intros k i s Hl Hi Hposes Hargs Hbad;
    [done |].
  destruct (Hposes 0) as [Hp Hr]; [lia |]. rewrite Nat.add_0_r in Hp, Hr.
  destruct (register_body_runs fn argsFn l inst k id' s Hl Hp Hr)
    as (s1 & Hrun & Hl1 & _).
  simpl. unfold bind at 1. rewrite Hrun.
  destruct i as [|i]; simpl in Hi.
  - rewrite Nat.add_0_r in Hbad. rewrite Hbad. eauto.
  - destruct (Hargs 0) as [a Ha]; [lia |]. rewrite Nat.add_0_r in Ha. rewrite Ha.
    destruct (IH (S k) i s1 Hl1 Hi) as (s' & Hloop).
    + intros j Hj. replace (S k + j) with (k + S j) by lia. apply Hposes. lia.
    + intros j Hj. replace (S k + j) with (k + S j) by lia. apply Hargs. lia.
    + by replace (S k + i) with (k + S i) by lia.
    + exists s'. unfold bind at 1. by rewrite Hloop.
Qed.

(** A constructor whose [argsFn] always returns mounts any handle whose
    replicas have poses of the declared type. *)
Lemma useBody_forwards type fn norm l o s :
  heap s !! l = Some o →
  (∀ j, j < length (body_uuids o) →
     pose_typed (bp_position (fn j)) ∧ pose_typed (bp_rotation (fn j))) →
  forwards (λ fn, useBody type fn (λ a, Ok (norm a))) type norm fn l o s.
Proof.
  intros Ho Hposes. unfold forwards, useBody.
  unfold bind at 1, get at 1. rewrite Ho.
  unfold bind at 1, update_object at 1. rewrite Ho. cbn [fst snd].
  set (s1 := set_heap _ s).
  destruct (mount_loop_returns fn norm l (bool_decide (is_Some (instances o)))
              (body_uuids o) 0 s1) as (s2 & Hloop & Hsent).
  { subst s1. simpl. rewrite lookup_insert_eq. eauto. }
  { intros j Hj. by apply Hposes. }
  unfold bind at 1. rewrite Hloop.
  eexists. split; [reflexivity |]. simpl. by rewrite Hsent.
Qed.

Lemma useSphere_named_error fn l o i s :
  heap s !! l = Some o → i < length (body_uuids o) →
  ¬ args_typed (args (fn i)) →
  (∀ j, j ≤ i → pose_typed (bp_position (fn j)) ∧ pose_typed (bp_rotation (fn j))) →
  (∀ j, j < i → args_typed (args (fn j))) →
  ∃ s', useSphere fn l s = (s', Throw (UserError "useSphere args must be an array")).
Proof.
  intros Ho Hi Hbad Hposes Hargs.
  destruct (lookup_lt_is_Some_2 (body_uuids o) i Hi) as [id Hid].
  unfold useSphere, useBody.
  unfold bind at 1, get at 1. rewrite Ho.
  unfold bind at 1, update_object at 1. rewrite Ho. cbn [fst snd].
  set (s1 := set_heap _ s).
  destruct (mount_loop_first_throw fn sphereArgs l (bool_decide (is_Some (instances o)))
              (body_uuids o) 0 i id (UserError "useSphere args must be an array") s1)
    as (s2 & Hloop); try done.
  - subst s1. simpl. rewrite lookup_insert_eq. eauto.
  - intros j Hj. destruct (Hargs j Hj) as [Ha | [la Ha]]; simpl; rewrite Ha;
      unfold sphereArgs; simpl; eauto.
  - simpl. by apply sphereArgs_rejects.
  - unfold bind at 1. rewrite Hloop. eauto.
Qed.

(** C9, as the code has it: [useSphere] checks its [args].  When the
    props of some replica carry [args] that are neither absent nor an
    array, the layout effect throws, and it does so before the
    [addBodies] call: nothing has been handed to the worker.  The error is
    the one [useSphere] raises itself ('useSphere args must be an array')
    when the replicas up to that one have poses of the declared type and
    the replicas before it well-formed args.  The other constructors do not
    look at [args]: on a handle whose replicas have poses of the declared
    type, [useBox], [useCylinder], [useHeightfield], [useTrimesh] and
    [useCompoundBody] return and hand every replica's args to the worker,
    the malformed ones as they are ([useBox] and [useCylinder] replace
    absent args only). *)
Theorem useSphere_rejects_malformed_args fn l o i s :
  heap s !! l = Some o → i < length (body_uuids o) →
  ¬ args_typed (args (fn i)) →
  (∃ s' e, useSphere fn l s = (s', Throw e) ∧ sent s' = sent s ∧
     ((∀ j, j ≤ i → pose_typed (bp_position (fn j)) ∧ pose_typed (bp_rotation (fn j))) →
      (∀ j, j < i → args_typed (args (fn j))) →
      e = UserError "useSphere args must be an array")) ∧
  ((∀ j, j < length (body_uuids o) →
      pose_typed (bp_position (fn j)) ∧ pose_typed (bp_rotation (fn j))) →
   forwards useBox "Box" (default_arg (JArr [JNum 1; JNum 1; JNum 1])) fn l o s ∧
   forwards useCylinder "Cylinder" (default_arg (JArr [])) fn l o s ∧
   forwards useHeightfield "Heightfield" (λ a, a) fn l o s ∧
   forwards useTrimesh "Trimesh" (λ a, a) fn l o s ∧
   forwards useCompoundBody "Compound" (λ a, a) fn l o s ∧
   default_arg (JArr [JNum 1; JNum 1; JNum 1]) (args (fn i)) = args (fn i) ∧
   default_arg (JArr []) (args (fn i)) = args (fn i)).
Proof.
  intros Ho Hi Hbad. split.
  - destruct (lookup_lt_is_Some_2 (body_uuids o) i Hi) as [id Hid].
    assert (∃ s' e, useSphere fn l s = (s', Throw e) ∧ sent s' = sent s)
      as (s' & e & Hrun & Hsent).
    { unfold useSphere, useBody. unfold bind at 1, get at 1. rewrite Ho.
      set (prep := update_object l _).
      set (regs := map_from 0 _ (body_uuids o)).
      assert (throws regs) as Hthrow.
      { eapply (map_from_throws _ _ 0 i id); [done |].
        by apply register_sphere_throws. }
      assert (quiet prep) as Hq1 by apply quiet_update_object.
      assert (quiet regs) as Hq2.
      { apply quiet_map_from. intros ??. apply quiet_register_body. }
      unfold bind at 1. specialize (Hq1 s).
      destruct (prep s) as [s1 [[]|e]]; simpl in Hq1; [| eauto].
      unfold bind at 1. specialize (Hq2 s1).
      destruct (Hthrow s1) as (s2 & e & Hregs). rewrite Hregs in *. simpl in Hq2.
      exists s2, e. split; [done | congruence]. }
    exists s', e. split; [done |]. split; [done |]. intros Hposes Hargs.
    destruct (useSphere_named_error fn l o i s Ho Hi Hbad Hposes Hargs) as (s'' & Hnamed).
    congruence.
  - intros Hposes. split_and!.
    + apply (useBody_forwards "Box" fn _ l o s Ho Hposes).
    + apply (useBody_forwards "Cylinder" fn _ l o s Ho Hposes).
    + apply (useBody_forwards "Heightfield" fn (λ a, a) l o s Ho Hposes).
    + apply (useBody_forwards "Trimesh" fn (λ a, a) l o s Ho Hposes).
    + apply (useBody_forwards "Compound" fn (λ a, a) l o s Ho Hposes).
    + destruct (args (fn i)); try done. exfalso. apply Hbad. by left.
    + destruct (args (fn i)); try done. exfalso. apply Hbad. by left.
Qed.

Lemma useSphere_rejects_witness :
  (∃ s' e, useSphere (λ _, Examples.props (JNum 1)) 1 Examples.empty = (s', Throw e) ∧
           sent s' = sent Examples.empty ∧
     ((∀ j, j ≤ 0 → pose_typed (bp_position (Examples.props (JNum 1))) ∧
                    pose_typed (bp_rotation (Examples.props (JNum 1)))) →
      (∀ j, j < 0 → args_typed (args (Examples.props (JNum 1)))) →
      e = UserError "useSphere args must be an array")) ∧
  ((∀ j, j < length (body_uuids Examples.box) →
      pose_typed (bp_position (Examples.props (JNum 1))) ∧
      pose_typed (bp_rotation (Examples.props (JNum 1)))) →
   forwards useBox "Box" (default_arg (JArr [JNum 1; JNum 1; JNum 1]))
     (λ _, Examples.props (JNum 1)) 1 Examples.box Examples.empty ∧
   forwards useCylinder "Cylinder" (default_arg (JArr []))
     (λ _, Examples.props (JNum 1)) 1 Examples.box Examples.empty ∧
   forwards useHeightfield "Heightfield" (λ a, a)
     (λ _, Examples.props (JNum 1)) 1 Examples.box Examples.empty ∧
   forwards useTrimesh "Trimesh" (λ a, a)
     (λ _, Examples.props (JNum 1)) 1 Examples.box Examples.empty ∧
   forwards useCompoundBody "Compound" (λ a, a)
     (λ _, Examples.props (JNum 1)) 1 Examples.box Examples.empty ∧
   default_arg (JArr [JNum 1; JNum 1; JNum 1]) (args (Examples.props (JNum 1)))
     = args (Examples.props (JNum 1)) ∧
   default_arg (JArr []) (args (Examples.props (JNum 1))) = args (Examples.props (JNum 1))).
Proof.
  apply (useSphere_rejects_malformed_args (λ _, Examples.props (JNum 1)) 1
           Examples.box 0 Examples.empty).
  - vm_compute. reflexivity.
  - simpl. lia.
  - intros [H | [l H]]; discriminate H.
Defined.

(** C9 as the specification words it fails: [useBox] is a strongly-typed
    constructor too, but given the number 1 where a triplet is required it
    does not throw; the malformed [args] go to the worker as they are. *)
Lemma useBox_forwards_malformed_args :
  ¬ args_typed (JNum 1) ∧
  ∃ s',
    useBox (λ _, Examples.props (JNum 1)) 1 Examples.empty = (s', Ok ["B"]) ∧
    sent s' = [OpAddBodies [serialize (Examples.props (JNum 1)) (JNum 1)] "Box" ["B"]].
Proof.
  split; [intros [H | [l H]]; discriminate H |].
  eexists. split; vm_compute; reflexivity.
Qed.
End ShapeConstructors.

(** * Further properties of the code *)

(** ** Frames and plain handles *)

Section PlainHandles.
Import Provider Spec.

Lemma frame_ref_plain reg ps qs o :
  instances o = None →
  frame_ref reg ps qs o =
  match reg !! uuid o with
  | Some ix => with_matrix o false
                 (MCompose (fromArray 3 ps (ix * 3)) (fromArray 4 qs (ix * 4)) (scale o))
  | None => o
  end.
Proof.
  intros Hplain. unfold frame_ref. rewrite Hplain.
  destruct (reg !! uuid o); done.
Qed.

Lemma frame_ref_plain_iter reg ps qs o k :
  instances o = None →
  Nat.iter (S k) (frame_ref reg ps qs) o = frame_ref reg ps qs o.
Proof.
  intros Hplain. induction k as [|k IH]; [done |].
  change (Nat.iter (S (S k)) (frame_ref reg ps qs) o)
    with (frame_ref reg ps qs (Nat.iter (S k) (frame_ref reg ps qs) o)).
  rewrite IH, (frame_ref_plain reg ps qs o Hplain).
  destruct (reg !! uuid o) as [ix|] eqn:Hix.
  - rewrite frame_ref_plain by done. simpl. by rewrite Hix.
  - rewrite frame_ref_plain by done. by rewrite Hix.
Qed.

(** X1: an active frame writes the pose of a registered plain handle
    directly onto it: the matrix composed from the buffer slices at the
    handle's registry index and the handle's own scale, with
    [matrixAutoUpdate] switched off.  A handle whose identity does not
    resolve in the registry is skipped: it keeps every field. *)
Theorem plain_handle_gets_its_pose shouldInvalidate msg s l o :
  active msg = true → heap s !! l = Some o → instances o = None →
  0 < handle_entries l s →
  heap (frameHandler shouldInvalidate msg s) !! l =
  Some match index_bodies (default [] (fm_bodies msg)) 0 (bodies s) !! uuid o with
       | Some ix =>
           with_matrix o false
             (MCompose (fromArray 3 (positions msg) (ix * 3))
                (fromArray 4 (quaternions msg) (ix * 4)) (scale o))
       | None => o
       end.
Proof.
  intros Hact Ho Hplain Hreg.
  rewrite frame_heap by done. rewrite frame_refs_lookup, Ho. simpl.
  unfold handle_entries in Hreg.
  destruct (length _) as [|k]; [lia |].
  rewrite frame_ref_plain_iter by done. by rewrite frame_ref_plain.
Qed.

Lemma plain_handle_witness :
  heap (frameHandler true (Examples.frame true (Some ["A"; "B"]))
          (Hooks.useBox (λ _, Examples.props JUndef) 1 Examples.empty).1) !! 1 =
  Some (with_matrix
          (Hooks.prepare Examples.box (Examples.props JUndef)).1 false
          (MCompose [Some 4; Some 5; Some 6]%Q [Some 0; Some 0; Some 0; Some 1]%Q unit_scale)).
Proof.
  rewrite (plain_handle_gets_its_pose true (Examples.frame true (Some ["A"; "B"]))
             (Hooks.useBox (λ _, Examples.props JUndef) 1 Examples.empty).1 1
             (Hooks.prepare Examples.box (Examples.props JUndef)).1).
  - vm_compute. reflexivity.
  - reflexivity.
  - vm_compute. reflexivity.
  - reflexivity.
  - vm_compute. lia.
Defined.

(** X2: a frame never touches a scene object that the handle table does
    not name, whatever the registry and the buffers hold. *)
Theorem unregistered_object_untouched shouldInvalidate msg s l :
  handle_entries l s = 0 →
  heap (frameHandler shouldInvalidate msg s) !! l = heap s !! l.
Proof.
  intros Hnone. destruct (active msg) eqn:Hact.
  - rewrite frame_heap by done. rewrite frame_refs_lookup.
    unfold handle_entries in Hnone. rewrite Hnone. simpl.
    by destruct (heap s !! l).
  - unfold frameHandler. rewrite Hact.
    pose proof (observations_frame (observations msg)
                  (set_bodies (index_bodies (default [] (fm_bodies msg)) 0) s)) as H.
    simpl in H. by destruct H as (-> & _).
Qed.

Lemma unregistered_object_witness :
  heap (frameHandler true (Examples.frame true (Some ["M/0"; "M/1"; "B"]))
          Examples.mounted) !! 1 = heap Examples.mounted !! 1.
Proof.
  apply (unregistered_object_untouched true
           (Examples.frame true (Some ["M/0"; "M/1"; "B"])) Examples.mounted 1).
  vm_compute. reflexivity.
Defined.

(** X3: a frame requests a redraw exactly once when it is active and the
    provider is configured to invalidate, and never otherwise. *)
Theorem redraw_requested_once_per_active_frame shouldInvalidate msg s :
  invalidations (frameHandler shouldInvalidate msg s) =
  invalidations s + (if active msg && shouldInvalidate then 1 else 0).
Proof.
  unfold frameHandler. set (s1 := set_bodies _ s).
  pose proof (observations_frame (observations msg) s1) as H. simpl in H.
  destruct H as (_ & _ & _ & _ & Hi & _).
  destruct (active msg); [destruct shouldInvalidate |]; simpl; rewrite Hi; simpl; lia.
Qed.

(** *** The registry under a frame's body list *)

Lemma index_bodies_last ids k (reg : gmap string Z) i u :
  ids !! i = Some u → u ∉ drop (S i) ids →
  index_bodies ids k reg !! u = Some (Z.of_nat (k + i)).
Proof.
  revert k reg i. induction ids as [|v ids IH]; intros k reg i Hi Hlast; [done |].
  simpl. destruct i as [|i]; simpl in *.
  - injection Hi as ->. rewrite drop_0 in Hlast.
    rewrite index_bodies_other by done.
    rewrite lookup_insert_eq. do 2 f_equal. lia.
  - rewrite (IH (S k) _ i) by done. do 2 f_equal. lia.
Qed.

(** X4: a frame patches the registry in place.  An identity of the body
    list gets the position of its last occurrence; the entry of an identity
    that is not listed is left exactly as it was; and a frame without a
    body list leaves the whole registry as it was. *)
Theorem frame_patches_registry shouldInvalidate msg s :
  (∀ ids i u, fm_bodies msg = Some ids → ids !! i = Some u → u ∉ drop (S i) ids →
     bodies (frameHandler shouldInvalidate msg s) !! u = Some (Z.of_nat i)) ∧
  (∀ u, u ∉ default [] (fm_bodies msg) →
     bodies (frameHandler shouldInvalidate msg s) !! u = bodies s !! u) ∧
  (fm_bodies msg = None → bodies (frameHandler shouldInvalidate msg s) = bodies s).
Proof.
  rewrite frame_bodies. split_and!.
  - intros ids i u -> Hi Hlast. simpl.
    by rewrite (index_bodies_last ids 0 _ i u).
  - intros u Hout. by apply index_bodies_other.
  - by intros ->.
Qed.
End PlainHandles.

(** ** The render loop *)

Section RenderLoop.
Import Provider Ticks.

Lemma run_ticks_sent ts s :
  timeSinceLastCalled s = 0%Q →
  sent (run ts s) = sent s ++ omap step_of ts ∧
  timeSinceLastCalled (run ts s) = 0%Q.
Proof.
  revert s. induction ts as [|t ts IH]; intros s Hzero; simpl.
  - by rewrite app_nil_r.
  - unfold tick, loop, step_of.
    destruct (paused t); simpl.
    + by apply IH.
    + destruct (IH (set_timeSinceLastCalled 0%Q
                      (send (OpStep (cap t) (size t) (timeSinceLastCalled s + delta t)) s)))
        as [-> ->]; [done |].
      simpl. rewrite Hzero, <- app_assoc. done.
Qed.

(** X5: over any run of render ticks, the provider sends one [step] per
    unpaused tick, in order, carrying that tick's own delta as the elapsed
    time; a paused tick sends nothing and its elapsed time is not carried
    over to the next step. *)
Theorem one_step_per_unpaused_tick ts s :
  timeSinceLastCalled s = 0%Q →
  sent (run ts s) = sent s ++ omap step_of ts ∧
  timeSinceLastCalled (run ts s) = 0%Q ∧
  length (sent (run ts s)) =
    length (sent s) + length (filter (λ t, paused t = false) ts).
Proof.
  intros Hzero. destruct (run_ticks_sent ts s Hzero) as [Hsent Ht].
  split_and!; [done | done |].
  rewrite Hsent, length_app. f_equal.
  clear. induction ts as [|t ts IH]; [done |].
  simpl. unfold step_of at 1.
  destruct (paused t) eqn:Hp.
  - rewrite filter_cons_False by (rewrite Hp; done). done.
  - rewrite filter_cons_True by done. simpl. f_equal. exact IH.
Qed.

Lemma one_step_witness :
  sent (run [ {| paused := false; cap := 10; size := 1 # 60; delta := 1 # 60 |};
              {| paused := true; cap := 10; size := 1 # 60; delta := 5 |};
              {| paused := false; cap := 10; size := 1 # 60; delta := 1 # 30 |} ]
          Examples.empty) =
  [OpStep 10 (1 # 60) (0 + (1 # 60)); OpStep 10 (1 # 60) (0 + (1 # 30))].
Proof.
  destruct (one_step_per_unpaused_tick
              [ {| paused := false; cap := 10; size := 1 # 60; delta := 1 # 60 |};
                {| paused := true; cap := 10; size := 1 # 60; delta := 5 |};
                {| paused := false; cap := 10; size := 1 # 60; delta := 1 # 30 |} ]
              Examples.empty) as (H & _ & _).
  - reflexivity.
  - exact H.
Defined.
End RenderLoop.

(** ** Mounting and unmounting a body *)

Section Tables.
Context {V : Type}.
Implicit Types (t : list (string * V)) (k : string) (v : V).

Lemma table_get_set t k v k' :
  table_get (table_set t k v) k' = if decide (k = k') then Some v else table_get t k'.
Proof.
  induction t as [|[k0 v0] t IH]; simpl.
  - destruct (decide (k = k')); done.
  - destruct (decide (k0 = k)) as [->|Hne]; simpl.
    + destruct (decide (k = k')); done.
    + rewrite IH. destruct (decide (k0 = k')) as [->|]; [| done].
      by rewrite decide_False by done.
Qed.

Lemma table_get_delete t k k' :
  table_get (table_delete t k) k' = if decide (k = k') then None else table_get t k'.
Proof.
  unfold table_delete. induction t as [|[k0 v0] t IH]; simpl.
  - by destruct (decide (k = k')).
  - destruct (decide (k0 = k)) as [->|Hne].
    + rewrite filter_cons_False by (simpl; auto). rewrite IH.
      destruct (decide (k = k')); done.
    + rewrite filter_cons_True by done. simpl. rewrite IH.
      destruct (decide (k0 = k')) as [->|]; [| done].
      by rewrite decide_False by done.
Qed.

Lemma table_get_None t k : table_get t k = None ↔ k ∉ t.*1.
Proof.
  induction t as [|[k0 v0] t IH]; simpl.
  - split; [intros _; apply not_elem_of_nil | done].
  - rewrite not_elem_of_cons. destruct (decide (k0 = k)) as [->|Hne].
    + split; [done | intros [? _]; done].
    + rewrite IH. split; [auto | intros [_ ?]; done].
Qed.

Lemma table_set_fresh t k v : table_get t k = None → table_set t k v = t ++ [(k, v)].
Proof.
  induction t as [|[k0 v0] t IH]; simpl; [done |].
  destruct (decide (k0 = k)); [done |]. intros H. by rewrite IH.
Qed.

Lemma table_set_all_fresh t ks v :
  NoDup ks → (∀ k, k ∈ ks → table_get t k = None) →
  foldl (λ t k, table_set t k v) t ks = t ++ ((λ k, (k, v)) <$> ks).
Proof.
  revert t. induction ks as [|k ks IH]; intros t Hnd Hfresh; simpl.
  - by rewrite app_nil_r.
  - apply NoDup_cons in Hnd as [Hk Hnd].
    rewrite table_set_fresh by (apply Hfresh; left).
    rewrite IH; [by rewrite <- app_assoc | done |].
    intros k' Hk'. apply table_get_None. rewrite fmap_app. simpl.
    intros [Hin | ->%list_elem_of_singleton]%elem_of_app.
    + apply (proj1 (table_get_None t k')); [| done]. apply Hfresh. by right.
    + done.
Qed.

Lemma table_delete_all t ks :
  foldl (λ t k, table_delete t k) t ks = filter (λ kv, kv.1 ∉ ks) t.
Proof.
  revert t. induction ks as [|k ks IH]; intros t; simpl.
  - induction t as [|kv t IHt]; [done |].
    rewrite filter_cons_True by apply not_elem_of_nil. by rewrite <- IHt.
  - rewrite IH. unfold table_delete. clear IH.
    induction t as [|kv t IHt]; [done |].
    destruct (decide (kv.1 = k)) as [Heq|Hne].
    + rewrite (filter_cons_False (λ kv, kv.1 ≠ k)) by auto.
      rewrite (filter_cons_False (λ kv, kv.1 ∉ k :: ks)); [done |].
      intros Hout. apply Hout. rewrite Heq. left.
    + rewrite (filter_cons_True (λ kv, kv.1 ≠ k)) by done.
      destruct (decide (kv.1 ∈ ks)) as [Hin|Hout].
      * rewrite !filter_cons_False; [done | |]; intros H; apply H; [by right | done].
      * rewrite !filter_cons_True; [by rewrite IHt | |]; [| done].
        intros [?|?]%elem_of_cons; done.
Qed.

Lemma filter_keeps_all {A} (P : A → Prop) `{∀ x, Decision (P x)} (l : list A) :
  (∀ x, x ∈ l → P x) → filter P l = l.
Proof.
  induction l as [|x l IH]; intros Hall; [done |].
  rewrite filter_cons_True by (apply Hall; left).
  rewrite IH; [done |]. intros y Hy. apply Hall. by right.
Qed.

Lemma filter_keeps_none {A} (P : A → Prop) `{∀ x, Decision (P x)} (l : list A) :
  (∀ x, x ∈ l → ¬ P x) → filter P l = [].
Proof.
  induction l as [|x l IH]; intros Hnone; [done |].
  rewrite filter_cons_False by (apply Hnone; left).
  apply IH. intros y Hy. apply Hnone. by right.
Qed.

(** Setting fresh keys and then deleting them gives the table back. *)
Lemma table_set_delete_all t ks v :
  NoDup ks → (∀ k, k ∈ ks → table_get t k = None) →
  foldl (λ t k, table_delete t k) (foldl (λ t k, table_set t k v) t ks) ks = t.
Proof.
  intros Hnd Hfresh. rewrite table_set_all_fresh, table_delete_all by done.
  rewrite filter_app.
  rewrite (filter_keeps_all _ t), (filter_keeps_none _ ((λ k, (k, v)) <$> ks)).
  - by rewrite app_nil_r.
  - intros kv [k [-> Hk]]%list_elem_of_fmap. simpl. auto.
  - intros [k v'] Hin Hk. simpl in *.
    specialize (Hfresh k Hk). apply table_get_None in Hfresh.
    apply Hfresh. apply list_elem_of_fmap. by exists (k, v').
Qed.
End Tables.

Section Mounting.
Import Provider Hooks Events Spec.

Lemma replica_uuid_inj base : Inj (=) (=) (replica_uuid base).
Proof.
  intros i j Heq. unfold replica_uuid in Heq.
  apply String.app_inj in Heq. apply (String.app_inj "/") in Heq.
  by apply pretty_nat_inj in Heq.
Qed.

Lemma body_uuids_NoDup o : NoDup (body_uuids o).
Proof.
  unfold body_uuids. destruct (instances o) as [d|]; [| apply NoDup_singleton].
  apply NoDup_fmap_2_strong; [| apply NoDup_seq].
  intros i j _ _ Heq. by apply (replica_uuid_inj (uuid o)).
Qed.

(** X6: the identities under which a handle is registered are pairwise
    distinct, one per replica for an instanced handle and the handle's own
    identity otherwise; the identity registered for replica [i] is the one
    the frame handler looks up for slot [i] and the one [getUUID] gives for
    index [i]. *)
Theorem replica_identities_distinct o :
  NoDup (body_uuids o) ∧
  length (body_uuids o) = match instances o with Some d => count d | None => 1 end ∧
  (∀ i id s l, body_uuids o !! i = Some id → heap s !! l = Some o →
     getUUID (Some l) (match instances o with Some _ => Some i | None => None end) s
       = Some id ∧
     (is_Some (instances o) → id = replica_uuid (uuid o) i)).
Proof.
  unfold body_uuids. destruct (instances o) as [d|] eqn:Hd; split_and!.
  - pose proof (body_uuids_NoDup o) as H. unfold body_uuids in H.
    by rewrite Hd in H.
  - by rewrite length_fmap, length_seq.
  - intros i id s l Hi Ho. rewrite list_lookup_fmap in Hi.
    destruct (seq 0 (count d) !! i) as [j|] eqn:Hj; [| done].
    apply lookup_seq in Hj as [-> _]. simpl in Hi. injection Hi as <-.
    unfold getUUID. rewrite Ho. done.
  - apply NoDup_singleton.
  - done.
  - intros [|i] id s l Hi Ho; [| done]. injection Hi as <-.
    unfold getUUID. rewrite Ho. split; [| by intros []].
    f_equal. clear. induction (uuid o) as [|c u IH]; [done |].
    change (String c (u +:+ "") = String c u). by rewrite IH.
Qed.

Lemma same_handle_refl o : same_handle o o.
Proof. unfold same_handle. by destruct (instances o). Qed.

Lemma same_handle_trans o1 o2 o3 :
  same_handle o1 o2 → same_handle o2 o3 → same_handle o1 o3.
Proof.
  unfold same_handle. intros (Hu & Hs & H12) (Hu' & Hs' & H23).
  split_and!; [congruence | congruence |].
  destruct (instances o1), (instances o2), (instances o3); try done.
  destruct H12, H23. split; congruence.
Qed.

Lemma prepare_same_handle o props : same_handle o (prepare o props).1.
Proof.
  unfold prepare, same_handle.
  destruct (spread _) as [pp|e]; simpl.
  - destruct (spread _) as [rr|e]; simpl; split_and!; try done;
      by destruct (instances o).
  - split_and!; try done. by destruct (instances o).
Qed.

Lemma register_body_ok fn argsFn l inst i id s s' p :
  register_body fn argsFn l inst i id s = (s', Ok p) →
  refs s' = table_set (refs s) id l ∧
  events s' = <[id := event_record (fn i)]> (events s) ∧
  sent s' = sent s ∧ bodies s' = bodies s ∧
  subscriptions s' = subscriptions s ∧ calls s' = calls s ∧
  (∀ l', l' ≠ l → heap s' !! l' = heap s !! l') ∧
  (∃ o o', heap s !! l = Some o ∧ heap s' !! l = Some o' ∧ same_handle o o') ∧
  ∃ a, argsFn (args (fn i)) = Ok a ∧ p = serialize (fn i) a.
Proof.
  unfold register_body.
  set (first := if inst then _ else _).
  unfold bind at 1.
  destruct (first s) as [s1 [[]|e]] eqn:Hfirst; [| done].
  unfold bind, modify, lift, ret. simpl.
  destruct (argsFn (args (fn i))) as [a|e] eqn:Ha; [| done].
  intros [= <- <-]. simpl.
  assert (refs s1 = refs s ∧ events s1 = events s ∧ sent s1 = sent s ∧
          bodies s1 = bodies s ∧ subscriptions s1 = subscriptions s ∧
          calls s1 = calls s ∧
          ∃ o o', heap s !! l = Some o ∧ same_handle o o' ∧
                  heap s1 = <[l := o']> (heap s)) as Hs1.
  { unfold first in Hfirst. destruct inst.
    - unfold bind, lift in Hfirst.
      destruct ((prepare temp (fn i)).2) as [[]|e]; [| done].
      unfold update_object in Hfirst.
      destruct (heap s !! l) as [o|] eqn:Ho; [| done].
      injection Hfirst as <-. simpl. split_and!; try done.
      eexists o, _. split; [done |]. split; [| reflexivity].
      unfold same_handle. destruct (instances o) as [d|] eqn:Hd; simpl.
      + split_and!; try done. by rewrite length_insert.
      + by rewrite Hd.
    - unfold update_object in Hfirst.
      destruct (heap s !! l) as [o|] eqn:Ho; [| done].
      injection Hfirst as <- Hres. simpl. split_and!; try done.
      exists o, (prepare o (fn i)).1. split_and!; try done.
      apply prepare_same_handle. }
  destruct Hs1 as (-> & -> & -> & -> & -> & -> & o & o' & Ho & Hsame & Hheap).
  split_and!; try done.
  - intros l' Hne. rewrite Hheap. by rewrite lookup_insert_ne.
  - exists o, o'. rewrite Hheap, lookup_insert_eq. done.
  - by exists a.
Qed.

(** The [uuid.map] of the layout effect, entered at index [i]. *)
Lemma mount_loop fn argsFn l inst ids i s s' ps :
  map_from i (register_body fn argsFn l inst) ids s = (s', Ok ps) →
  refs s' = foldl (λ r id, table_set r id l) (refs s) ids ∧
  sent s' = sent s ∧ bodies s' = bodies s ∧
  subscriptions s' = subscriptions s ∧ calls s' = calls s ∧
  (∀ id, id ∉ ids → events s' !! id = events s !! id) ∧
  (NoDup ids → ∀ j id, ids !! j = Some id →
     events s' !! id = Some (event_record (fn (i + j)))) ∧
  (∀ l', l' ≠ l → heap s' !! l' = heap s !! l') ∧
  (∀ o, heap s !! l = Some o → ∃ o', heap s' !! l = Some o' ∧ same_handle o o') ∧
  length ps = length ids ∧
  (∀ j, j < length ids →
     ∃ a, argsFn (args (fn (i + j))) = Ok a ∧ ps !! j = Some (serialize (fn (i + j)) a)).
Proof.
  revert i s ps. induction ids as [|id ids IH]; intros i s ps; simpl.
  - unfold ret. intros [= <- <-]. split_and!; try done.
    + intros o Ho. exists o. split; [done | apply same_handle_refl].
    + intros j Hj. lia.
  - unfold bind at 1.
    destruct (register_body fn argsFn l inst i id s) as [s1 [p|e]] eqn:Hreg; [| done].
    unfold bind at 1.
    destruct (map_from (S i) _ ids s1) as [s2 [ps'|e]] eqn:Hloop; [| done].
    unfold ret. intros [= <- <-].
    destruct (register_body_ok _ _ _ _ _ _ _ _ _ Hreg)
      as (Hrefs & Hev & Hsent & Hbod & Hsub & Hcalls & Hheap & (o & o1 & Ho & Ho1 & Hsame)
          & a & Ha & ->).
    destruct (IH _ _ _ Hloop)
      as (Hrefs' & Hsent' & Hbod' & Hsub' & Hcalls' & Hev_out & Hev_in & Hheap' & Hl'
          & Hlen & Hps).
    split_and!; try congruence.
    + intros id' [Hne Hout]%not_elem_of_cons.
      rewrite Hev_out, Hev by done. by rewrite lookup_insert_ne.
    + intros [Hid Hnd]%NoDup_cons [|j] id' Hj; simpl in Hj.
      * injection Hj as <-. rewrite Hev_out, Hev by done.
        rewrite lookup_insert_eq. by rewrite Nat.add_0_r.
      * rewrite (Hev_in Hnd j id' Hj).
        by replace (S i + j) with (i + S j) by lia.
    + intros l' Hne. by rewrite Hheap', Hheap.
    + intros o0 Ho0. rewrite Ho in Ho0. injection Ho0 as <-.
      destruct (Hl' o1 Ho1) as (o2 & Ho2 & Hsame2).
      exists o2. split; [done |]. by eapply same_handle_trans.
    + simpl. by rewrite Hlen.
    + intros [|j] Hj; simpl.
      * exists a. by rewrite Nat.add_0_r.
      * destruct (Hps j) as (a' & Ha' & Hj'); [lia |].
        exists a'. replace (i + S j) with (S i + j) by lia. done.
Qed.

(** What a successful layout effect of [useBody] leaves. *)
Lemma useBody_ok type fn argsFn l s s' ids :
  useBody type fn argsFn l s = (s', Ok ids) →
  ∃ o o' ps,
    heap s !! l = Some o ∧ ids = body_uuids o ∧
    heap s' !! l = Some o' ∧ same_handle o o' ∧
    (∀ l', l' ≠ l → heap s' !! l' = heap s !! l') ∧
    refs s' = foldl (λ r id, table_set r id l) (refs s) ids ∧
    sent s' = sent s ++ [OpAddBodies ps type ids] ∧
    length ps = length ids ∧
    (∀ j, j < length ids →
       ∃ a, argsFn (args (fn j)) = Ok a ∧ ps !! j = Some (serialize (fn j) a)) ∧
    (∀ id, id ∉ ids → events s' !! id = events s !! id) ∧
    (∀ j id, ids !! j = Some id → events s' !! id = Some (event_record (fn j))) ∧
    bodies s' = bodies s ∧ subscriptions s' = subscriptions s ∧ calls s' = calls s.
Proof.
  unfold useBody. unfold bind at 1, get at 1.
  destruct (heap s !! l) as [o|] eqn:Ho; [| done].
  unfold bind at 1, update_object at 1. rewrite Ho. simpl.
  set (o1 := match instances o with
             | Some d => with_instances o (setDynamicUsage d)
             | None => o
             end).
  set (s1 := set_heap _ s).
  unfold bind at 1.
  destruct (map_from 0 _ (body_uuids o) s1) as [s2 [ps|e]] eqn:Hloop; [| done].
  unfold bind, modify, ret. simpl. intros [= <- <-].
  assert (same_handle o o1) as Hsame1.
  { unfold o1, same_handle. destruct (instances o) as [d|] eqn:Hd; simpl; [done |].
    by rewrite Hd. }
  assert (heap s1 !! l = Some o1) as Ho1 by (simpl; apply lookup_insert_eq).
  destruct (mount_loop _ _ _ _ _ _ _ _ _ Hloop)
    as (Hrefs & Hsent & Hbod & Hsub & Hcalls & Hev_out & Hev_in & Hheap & Hl
        & Hlen & Hps).
  destruct (Hl o1 Ho1) as (o2 & Ho2 & Hsame2).
  exists o, o2, ps. simpl. split_and!; try done.
  - by eapply same_handle_trans.
  - intros l' Hne. rewrite Hheap by done. simpl. by rewrite lookup_insert_ne.
  - by rewrite Hsent.
  - intros j id Hj. rewrite (Hev_in (body_uuids_NoDup o) j id Hj).
    done.
Qed.
Lemma handle_of_mounted (r : list (string * nat)) ids l id :
  table_get (foldl (λ r id, table_set r id l) r ids) id =
  if decide (id ∈ ids) then Some l else table_get r id.
Proof.
  revert r. induction ids as [|k ids IH]; intros r; simpl; [done |].
  rewrite IH, table_get_set.
  destruct (decide (id ∈ ids)) as [Hin|Hout].
  - rewrite decide_True; [done | by right].
  - destruct (decide (k = id)) as [->|Hne].
    + rewrite decide_True; [done | by left].
    + rewrite decide_False; [done |]. intros [?|?]%elem_of_cons; done.
Qed.

Lemma cleanup_spec ids s :
  refs (useBody_cleanup ids s) = foldl (λ r id, table_delete r id) (refs s) ids ∧
  (∀ id, events (useBody_cleanup ids s) !! id =
         if decide (id ∈ ids) then None else events s !! id) ∧
  sent (useBody_cleanup ids s) = sent s ++ [OpRemoveBodies ids] ∧
  heap (useBody_cleanup ids s) = heap s ∧ bodies (useBody_cleanup ids s) = bodies s ∧
  subscriptions (useBody_cleanup ids s) = subscriptions s.
Proof.
  unfold useBody_cleanup. simpl.
  assert (∀ ids' s,
            let s' := foldl (λ s id, set_events (λ ev, delete id ev)
                                       (set_refs (λ r, table_delete r id) s)) s ids' in
            refs s' = foldl (λ r id, table_delete r id) (refs s) ids' ∧
            (∀ id, events s' !! id = if decide (id ∈ ids') then None else events s !! id) ∧
            sent s' = sent s ∧ heap s' = heap s ∧ bodies s' = bodies s ∧
            subscriptions s' = subscriptions s) as Hfold.
  { clear. induction ids' as [|k ids' IH]; intros s; simpl; [done |].
    specialize (IH (set_events (λ ev, delete k ev)
                      (set_refs (λ r, table_delete r k) s))).
    simpl in IH. destruct IH as (-> & Hev & -> & -> & -> & ->).
    split_and!; try done.
    intros id. rewrite Hev. destruct (decide (id ∈ ids')) as [Hin|Hout].
    - rewrite decide_True; [done | by right].
    - destruct (decide (k = id)) as [->|Hne].
      + rewrite decide_True by (by left). simpl. apply lookup_delete_eq.
      + rewrite decide_False by (intros [?|?]%elem_of_cons; done).
        simpl. by rewrite lookup_delete_ne. }
  destruct (Hfold ids s) as (-> & Hev & -> & -> & -> & ->). done.
Qed.

Lemma handle_of_cleanup ids s id :
  handle_of (useBody_cleanup ids s) id =
  if decide (id ∈ ids) then None else handle_of s id.
Proof.
  unfold handle_of. destruct (cleanup_spec ids s) as (-> & _).
  generalize (refs s). induction ids as [|k ids IH]; intros r; simpl; [done |].
  rewrite IH, table_get_delete.
  destruct (decide (id ∈ ids)) as [Hin|Hout].
  - rewrite decide_True; [done | by right].
  - destruct (decide (k = id)) as [->|Hne].
    + rewrite decide_True; [done | by left].
    + rewrite decide_False; [done |]. intros [?|?]%elem_of_cons; done.
Qed.

(** X7: when the layout effect of [useBody] returns, it has sent exactly
    one [addBodies], listing the handle's identities with their props in
    the same order (the args as [argsFn] returned them, the collision
    callback reduced to a flag); every listed identity then names the
    handle in the handle table and has the event record of its props, and
    the entries of other identities, the registry and the other scene
    objects are as they were. *)
Theorem mount_registers_and_sends_once type fn argsFn l s s' ids :
  useBody type fn argsFn l s = (s', Ok ids) →
  (∃ ps, sent s' = sent s ++ [OpAddBodies ps type ids] ∧ length ps = length ids ∧
         ∀ j, j < length ids →
           ∃ a, argsFn (args (fn j)) = Ok a ∧ ps !! j = Some (serialize (fn j) a)) ∧
  (∀ id, id ∈ ids → handle_of s' id = Some l) ∧
  (∀ id, id ∉ ids → handle_of s' id = handle_of s id ∧ events s' !! id = events s !! id) ∧
  (∀ j id, ids !! j = Some id → events s' !! id = Some (event_record (fn j))) ∧
  bodies s' = bodies s ∧
  (∀ l', l' ≠ l → heap s' !! l' = heap s !! l').
Proof.
  intros Hrun.
  destruct (useBody_ok _ _ _ _ _ _ _ Hrun)
    as (o & o' & ps & Ho & -> & Ho' & Hsame & Hheap & Hrefs & Hsent & Hlen & Hps
        & Hev_out & Hev_in & Hbod & _).
  split_and!; try done.
  - by exists ps.
  - intros id Hin. unfold handle_of. rewrite Hrefs, handle_of_mounted.
    by rewrite decide_True.
  - intros id Hout. split; [| by apply Hev_out].
    unfold handle_of. rewrite Hrefs, handle_of_mounted. by rewrite decide_False.
Qed.

Lemma mount_witness :
  let s' := (useSphere (λ _, Examples.props JUndef) 0 Examples.empty).1 in
  (∃ ps, sent s' = sent Examples.empty ++ [OpAddBodies ps "Sphere" ["M/0"; "M/1"]] ∧
         length ps = 2 ∧
         ∀ j, j < 2 →
           ∃ a, sphereArgs (args (Examples.props JUndef)) = Ok a ∧
                ps !! j = Some (serialize (Examples.props JUndef) a)) ∧
  (∀ id, id ∈ ["M/0"; "M/1"] → handle_of s' id = Some 0).
Proof.
  cbv zeta.
  destruct (mount_registers_and_sends_once "Sphere" (λ _, Examples.props JUndef)
              sphereArgs 0 Examples.empty
              (useSphere (λ _, Examples.props JUndef) 0 Examples.empty).1
              ["M/0"; "M/1"]) as (H1 & H2 & _).
  - vm_compute. reflexivity.
  - split; [exact H1 | exact H2].
Defined.

(** X8: mounting a body and unmounting it again restores the handle table
    (entries and their order) and the event table, when the identities
    were not registered before; the worker has been sent one [addBodies]
    and then one [removeBodies] for the same identities. *)
Theorem mount_then_unmount_restores_tables type fn argsFn l s s' ids :
  useBody type fn argsFn l s = (s', Ok ids) →
  (∀ id, id ∈ ids → handle_of s id = None ∧ events s !! id = None) →
  refs (useBody_cleanup ids s') = refs s ∧
  events (useBody_cleanup ids s') = events s ∧
  ∃ ps, sent (useBody_cleanup ids s') =
        sent s ++ [OpAddBodies ps type ids; OpRemoveBodies ids].
Proof.
  intros Hrun Hfresh.
  destruct (useBody_ok _ _ _ _ _ _ _ Hrun)
    as (o & o' & ps & Ho & -> & Ho' & Hsame & Hheap & Hrefs & Hsent & Hlen & Hps
        & Hev_out & Hev_in & Hbod & _).
  destruct (cleanup_spec (body_uuids o) s') as (Hr & He & Hs & _).
  split_and!.
  - rewrite Hr, Hrefs. apply table_set_delete_all; [apply body_uuids_NoDup |].
    intros id Hin. by destruct (Hfresh id Hin).
  - apply map_eq. intros id. rewrite He.
    destruct (decide (id ∈ body_uuids o)) as [Hin|Hout].
    + by destruct (Hfresh id Hin) as [_ ->].
    + by apply Hev_out.
  - exists ps. rewrite Hs, Hsent, <- app_assoc. done.
Qed.

Lemma mount_then_unmount_witness :
  refs (useBody_cleanup ["M/0"; "M/1"] Examples.mounted) = refs Examples.empty ∧
  events (useBody_cleanup ["M/0"; "M/1"] Examples.mounted) = events Examples.empty ∧
  ∃ ps, sent (useBody_cleanup ["M/0"; "M/1"] Examples.mounted) =
        sent Examples.empty ++ [OpAddBodies ps "Sphere" ["M/0"; "M/1"];
                                OpRemoveBodies ["M/0"; "M/1"]].
Proof.
  apply (mount_then_unmount_restores_tables "Sphere" (λ _, Examples.props JUndef)
           sphereArgs 0 Examples.empty Examples.mounted ["M/0"; "M/1"]).
  - vm_compute. reflexivity.
  - intros id Hin. split; reflexivity.
Defined.

(** *** Collision events and mounted bodies *)

(** X9: once a body is unmounted, collision events naming it reach no
    callback of its own: a [collide] targeted at it invokes nothing, and of
    a [collideBegin] or [collideEnd] between it and another body, whichever
    of the two the event names first, only the other body's callback runs,
    and is handed no handle for the unmounted body. *)
Theorem unmounted_body_receives_no_events ids s :
  (∀ e, ce_target e ∈ ids → collideHandler e (useBody_cleanup ids s) = []) ∧
  (∀ a b, a ∈ ids → b ∈ ids →
     collideBeginHandler a b (useBody_cleanup ids s) = [] ∧
     collideEndHandler a b (useBody_cleanup ids s) = []) ∧
  (∀ a b, a ∈ ids → b ∉ ids →
     collideBeginHandler a b (useBody_cleanup ids s) =
       match events s !! b ≫= collideBegin with
       | Some cb => [(cb, CollideBegan None (handle_of s b))]
       | None => []
       end ∧
     collideEndHandler a b (useBody_cleanup ids s) =
       match events s !! b ≫= collideEnd with
       | Some cb => [(cb, CollideEnded None (handle_of s b))]
       | None => []
       end) ∧
  (∀ a b, a ∉ ids → b ∈ ids →
     collideBeginHandler a b (useBody_cleanup ids s) =
       match events s !! a ≫= collideBegin with
       | Some cb => [(cb, CollideBegan None (handle_of s a))]
       | None => []
       end ∧
     collideEndHandler a b (useBody_cleanup ids s) =
       match events s !! a ≫= collideEnd with
       | Some cb => [(cb, CollideEnded None (handle_of s a))]
       | None => []
       end).
Proof.
  destruct (cleanup_spec ids s) as (_ & Hev & _).
  split_and!.
  - intros e Hin. unfold collideHandler. by rewrite Hev, decide_True.
  - intros a b Ha Hb. unfold collideBeginHandler, collideEndHandler.
    by rewrite !Hev, !decide_True.
  - intros a b Ha Hb. unfold collideBeginHandler, collideEndHandler.
    rewrite !Hev, !handle_of_cleanup.
    rewrite !(decide_True (P := a ∈ ids)), !(decide_False (P := b ∈ ids)) by done.
    done.
  - intros a b Ha Hb. unfold collideBeginHandler, collideEndHandler.
    rewrite !Hev, !handle_of_cleanup.
    rewrite !(decide_False (P := a ∈ ids)), !(decide_True (P := b ∈ ids)) by done.
    cbn [mbind option_bind]. by rewrite !app_nil_r.
Qed.

(** X10: after a body is mounted, a [collide] event targeted at one of its
    identities invokes exactly the [onCollide] callback of that identity's
    props, if there is one, handing it the mounted handle as target and the
    handles of the other identities as the handle table resolves them;
    the record of the colliding [body] is not consulted.  A [collideBegin]
    or [collideEnd] between this identity and another body invokes this
    identity's callback of that kind and the other body's, each handed the
    mounted handle where the event means this identity; the callback of
    the body that the event names first runs first. *)
Theorem collision_events_reach_mounted_body type fn argsFn l s s' ids j id :
  useBody type fn argsFn l s = (s', Ok ids) → ids !! j = Some id →
  (∀ e, ce_target e = id →
     collideHandler e s' =
       match onCollide (fn j) with
       | Some cb => [(cb, Collided (handle_of s' (ce_body e)) (Some l)
                            (handle_of s' (ce_bi e)) (handle_of s' (ce_bj e))
                            (ce_contactRest e) (ce_rest e))]
       | None => []
       end) ∧
  (∀ b, collideBeginHandler id b s' =
     match onCollideBegin (fn j) with
     | Some cb => [(cb, CollideBegan (handle_of s' b) (Some l))]
     | None => []
     end ++
     match events s' !! b ≫= collideBegin with
     | Some cb => [(cb, CollideBegan (Some l) (handle_of s' b))]
     | None => []
     end) ∧
  (∀ b, collideBeginHandler b id s' =
     match events s' !! b ≫= collideBegin with
     | Some cb => [(cb, CollideBegan (Some l) (handle_of s' b))]
     | None => []
     end ++
     match onCollideBegin (fn j) with
     | Some cb => [(cb, CollideBegan (handle_of s' b) (Some l))]
     | None => []
     end) ∧
  (∀ b, collideEndHandler id b s' =
     match onCollideEnd (fn j) with
     | Some cb => [(cb, CollideEnded (handle_of s' b) (Some l))]
     | None => []
     end ++
     match events s' !! b ≫= collideEnd with
     | Some cb => [(cb, CollideEnded (Some l) (handle_of s' b))]
     | None => []
     end) ∧
  (∀ b, collideEndHandler b id s' =
     match events s' !! b ≫= collideEnd with
     | Some cb => [(cb, CollideEnded (Some l) (handle_of s' b))]
     | None => []
     end ++
     match onCollideEnd (fn j) with
     | Some cb => [(cb, CollideEnded (handle_of s' b) (Some l))]
     | None => []
     end).
Proof.
  intros Hrun Hj.
  destruct (useBody_ok _ _ _ _ _ _ _ Hrun)
    as (o & o' & ps & Ho & -> & Ho' & Hsame & Hheap & Hrefs & Hsent & Hlen & Hps
        & Hev_out & Hev_in & Hbod & _).
  assert (handle_of s' id = Some l) as Hid.
  { unfold handle_of. rewrite Hrefs, handle_of_mounted.
    rewrite decide_True; [done | by eapply list_elem_of_lookup_2]. }
  split_and!.
  - intros e He. unfold collideHandler. rewrite He, (Hev_in j _ Hj), Hid. done.
  - intros b. unfold collideBeginHandler. rewrite (Hev_in j _ Hj), Hid. done.
  - intros b. unfold collideBeginHandler. rewrite (Hev_in j _ Hj), Hid. done.
  - intros b. unfold collideEndHandler. rewrite (Hev_in j _ Hj), Hid. done.
  - intros b. unfold collideEndHandler. rewrite (Hev_in j _ Hj), Hid. done.
Qed.

Lemma collision_events_witness :
  (∀ e, ce_target e = "B" →
     collideHandler e (useBox (λ _, Examples.listening) 1 Examples.empty).1 =
       [(11, Collided
               (handle_of (useBox (λ _, Examples.listening) 1 Examples.empty).1 (ce_body e))
               (Some 1)
               (handle_of (useBox (λ _, Examples.listening) 1 Examples.empty).1 (ce_bi e))
               (handle_of (useBox (λ _, Examples.listening) 1 Examples.empty).1 (ce_bj e))
               (ce_contactRest e) (ce_rest e))]) ∧
  (∀ b, collideBeginHandler "B" b (useBox (λ _, Examples.listening) 1 Examples.empty).1 =
     [(12, CollideBegan
             (handle_of (useBox (λ _, Examples.listening) 1 Examples.empty).1 b) (Some 1))]
     ++
     match events (useBox (λ _, Examples.listening) 1 Examples.empty).1 !! b
           ≫= collideBegin with
     | Some cb => [(cb, CollideBegan (Some 1)
                          (handle_of (useBox (λ _, Examples.listening) 1
                                        Examples.empty).1 b))]
     | None => []
     end) ∧
  (∀ b, collideBeginHandler b "B" (useBox (λ _, Examples.listening) 1 Examples.empty).1 =
     match events (useBox (λ _, Examples.listening) 1 Examples.empty).1 !! b
           ≫= collideBegin with
     | Some cb => [(cb, CollideBegan (Some 1)
                          (handle_of (useBox (λ _, Examples.listening) 1
                                        Examples.empty).1 b))]
     | None => []
     end ++
     [(12, CollideBegan
             (handle_of (useBox (λ _, Examples.listening) 1 Examples.empty).1 b) (Some 1))]) ∧
  (∀ b, collideEndHandler "B" b (useBox (λ _, Examples.listening) 1 Examples.empty).1 =
     [(13, CollideEnded
             (handle_of (useBox (λ _, Examples.listening) 1 Examples.empty).1 b) (Some 1))]
     ++
     match events (useBox (λ _, Examples.listening) 1 Examples.empty).1 !! b
           ≫= collideEnd with
     | Some cb => [(cb, CollideEnded (Some 1)
                          (handle_of (useBox (λ _, Examples.listening) 1
                                        Examples.empty).1 b))]
     | None => []
     end) ∧
  (∀ b, collideEndHandler b "B" (useBox (λ _, Examples.listening) 1 Examples.empty).1 =
     match events (useBox (λ _, Examples.listening) 1 Examples.empty).1 !! b
           ≫= collideEnd with
     | Some cb => [(cb, CollideEnded (Some 1)
                          (handle_of (useBox (λ _, Examples.listening) 1
                                        Examples.empty).1 b))]
     | None => []
     end ++
     [(13, CollideEnded
             (handle_of (useBox (λ _, Examples.listening) 1 Examples.empty).1 b) (Some 1))]).
Proof.
  apply (collision_events_reach_mounted_body "Box" (λ _, Examples.listening)
           (λ a, Ok (default_arg (JArr [JNum 1; JNum 1; JNum 1]) a)) 1 Examples.empty
           (useBox (λ _, Examples.listening) 1 Examples.empty).1 ["B"] 0 "B").
  - vm_compute. reflexivity.
  - reflexivity.
Defined.

(** *** A layout effect that throws *)

Lemma steady_bind {A B} (m : Eff State A) (k : A → Eff State B) :
  steady m → (∀ a, steady (k a)) → steady (bind m k).
Proof.
  intros Hm Hk s. unfold bind. specialize (Hm s).
  destruct (m s) as [s1 [a|e]]; simpl in *; [| done].
  destruct (Hk a s1) as (-> & -> & ->). done.
Qed.

Lemma steady_update_object l f : steady (update_object l f).
Proof. intros s. unfold update_object. by destruct (heap s !! l). Qed.

Lemma steady_register_body fn argsFn l inst i id :
  steady (register_body fn argsFn l inst i id).
Proof.
  unfold register_body.
  repeat (apply steady_bind; [| intros ?]); try done;
    try apply steady_update_object.
  destruct inst; [apply steady_bind; [done | intros ?] |];
    apply steady_update_object.
Qed.

Lemma steady_map_from {A B} (f : nat → A → Eff State B) xs i :
  (∀ i x, steady (f i x)) → steady (map_from i f xs).
Proof.
  intros Hf. revert i. induction xs as [|x xs IH]; intros i; simpl; [done |].
  apply steady_bind; [apply Hf | intros y].
  apply steady_bind; [apply IH | done].
Qed.

(** X11: whatever makes the layout effect of a body hook throw (a pose
    that cannot be spread, args that the constructor rejects), nothing has
    been handed to the worker when it does, and the registry and the
    subscriptions are as they were. *)
Theorem failed_mount_sends_nothing type fn argsFn l s s' e :
  useBody type fn argsFn l s = (s', Throw e) →
  sent s' = sent s ∧ bodies s' = bodies s ∧ subscriptions s' = subscriptions s.
Proof.
  unfold useBody. unfold bind at 1, get at 1.
  destruct (heap s !! l) as [o|] eqn:Ho; [| by intros [= <- _]].
  set (prep := update_object l _).
  set (regs := map_from 0 _ (body_uuids o)).
  assert (steady prep) as Hq1 by apply steady_update_object.
  assert (steady regs) as Hq2.
  { apply steady_map_from. intros ??. apply steady_register_body. }
  specialize (Hq1 s). unfold bind at 1.
  destruct (prep s) as [s1 [[]|e1]]; simpl in Hq1.
  - specialize (Hq2 s1). unfold bind at 1.
    destruct (regs s1) as [s2 [ps|e2]]; simpl in Hq2.
    + unfold bind, modify, ret. done.
    + intros [= <- _]. destruct Hq1 as (<- & <- & <-). done.
  - intros [= <- _]. done.
Qed.

Lemma failed_mount_witness :
  sent (useSphere (λ _, Examples.props (JNum 1)) 1 Examples.empty).1 = sent Examples.empty ∧
  bodies (useSphere (λ _, Examples.props (JNum 1)) 1 Examples.empty).1
    = bodies Examples.empty ∧
  subscriptions (useSphere (λ _, Examples.props (JNum 1)) 1 Examples.empty).1
    = subscriptions Examples.empty.
Proof.
  apply (failed_mount_sends_nothing "Sphere" (λ _, Examples.props (JNum 1)) sphereArgs 1
           Examples.empty _ (UserError "useSphere args must be an array")).
  vm_compute. reflexivity.
Defined.
(** *** What the constructors make of [args] *)

Lemma register_rejects fn argsFn l inst i id e0 :
  argsFn (args (fn i)) = Throw e0 → throws (register_body fn argsFn l inst i id).
Proof.
  intros Hbad s. unfold register_body. rewrite Hbad.
  unfold bind at 1.
  match goal with |- context [match ?m s with _ => _ end] => destruct (m s) as [s1 [[]|e]] end;
    [| eauto].
  unfold bind, modify, lift. simpl. eauto.
Qed.

Lemma useBody_rejects type fn argsFn l o i e0 s :
  heap s !! l = Some o → i < length (body_uuids o) →
  argsFn (args (fn i)) = Throw e0 →
  ∃ s' e, useBody type fn argsFn l s = (s', Throw e) ∧ sent s' = sent s.
Proof.
  intros Ho Hi Hbad.
  destruct (lookup_lt_is_Some_2 (body_uuids o) i Hi) as [id Hid].
  unfold useBody. unfold bind at 1, get at 1. rewrite Ho.
  set (prep := update_object l _).
  set (regs := map_from 0 _ (body_uuids o)).
  assert (throws regs) as Hthrow.
  { eapply (map_from_throws _ _ 0 i id); [done |].
    by eapply register_rejects. }
  assert (quiet prep) as Hq1 by apply quiet_update_object.
  assert (quiet regs) as Hq2.
  { apply quiet_map_from. intros ??. apply quiet_register_body. }
  unfold bind at 1. specialize (Hq1 s).
  destruct (prep s) as [s1 [[]|e]]; simpl in Hq1; [| eauto].
  unfold bind at 1. specialize (Hq2 s1).
  destruct (Hthrow s1) as (s2 & e & Hregs). rewrite Hregs in *. simpl in Hq2.
  exists s2, e. split; [done | congruence].
Qed.

(** X12: [useConvexPolyhedron] fails fast as well, through destructuring:
    args that are given but cannot be iterated (a number, a boolean, null,
    an object), or whose vertices, normals or axes are truthy but not an
    array, make the layout effect throw before anything is sent. *)
Theorem useConvexPolyhedron_rejects_malformed_args fn l o i s :
  heap s !! l = Some o → i < length (body_uuids o) →
  args (fn i) ≠ JUndef →
  (¬ iterable (args (fn i)) ∨
   ∃ fields k x, args (fn i) = JArr fields ∧ k ∈ [0; 2; 3] ∧
                 fields !! k = Some x ∧ truthy x = true ∧ ∀ vs, x ≠ JArr vs) →
  ∃ s' e, useConvexPolyhedron fn l s = (s', Throw e) ∧ sent s' = sent s.
Proof.
  intros Ho Hi Hgiven Hbad.
  assert (∃ e0, convexPolyhedronArgs (args (fn i)) = Throw e0) as [e0 He0].
  { unfold convexPolyhedronArgs.
    assert (default_arg (JArr []) (args (fn i)) = args (fn i)) as ->
      by (by destruct (args (fn i))).
    destruct Hbad as [Hiter | (fields & k & x & -> & Hk & Hx & Htruthy & Harr)].
    - destruct (spread (args (fn i))) as [vs|e] eqn:Hs; [| eauto].
      exfalso. apply Hiter. by exists vs.
    - simpl.
      assert (∃ e, and_map x = Throw e) as [e Hthrow].
      { unfold and_map. rewrite Htruthy. destruct x; eauto. by exfalso; eapply Harr. }
      apply elem_of_cons in Hk as [->|Hk]; [rewrite Hx; simpl; rewrite Hthrow; eauto |].
      apply elem_of_cons in Hk as [->|Hk].
      + rewrite Hx. simpl. rewrite Hthrow.
        destruct (and_map (default JUndef (fields !! 0))); eauto.
      + apply list_elem_of_singleton in Hk as ->. rewrite Hx. simpl. rewrite Hthrow.
        destruct (and_map (default JUndef (fields !! 0))); [| eauto].
        destruct (and_map (default JUndef (fields !! 2))); eauto. }
  by eapply useBody_rejects.
Qed.

Lemma useConvexPolyhedron_rejects_witness :
  ∃ s' e, useConvexPolyhedron (λ _, Examples.props (JNum 1)) 1 Examples.empty
          = (s', Throw e) ∧ sent s' = sent Examples.empty.
Proof.
  apply (useConvexPolyhedron_rejects_malformed_args (λ _, Examples.props (JNum 1)) 1
           Examples.box 0 Examples.empty).
  - vm_compute. reflexivity.
  - simpl. lia.
  - discriminate.
  - left. intros [vs H]. discriminate H.
Defined.

Lemma sent_args type fn argsFn l s s' ids j :
  useBody type fn argsFn l s = (s', Ok ids) → j < length ids →
  ∃ ps p a, sent s' = sent s ++ [OpAddBodies ps type ids] ∧
            ps !! j = Some p ∧ argsFn (args (fn j)) = Ok a ∧ sp_args p = a ∧
            sp_onCollide p = bool_decide (is_Some (onCollide (fn j))).
Proof.
  intros Hrun Hj.
  destruct (useBody_ok _ _ _ _ _ _ _ Hrun)
    as (o & o' & ps & _ & _ & _ & _ & _ & _ & Hsent & _ & Hps & _).
  destruct (Hps j Hj) as (a & Ha & Hp).
  exists ps, (serialize (fn j) a), a. done.
Qed.

(** X13: what reaches the worker as [args] depends on the constructor.
    [usePlane] and [useParticle] send an empty list whatever they were
    given; [useBox] and [useCylinder] fill in [[1, 1, 1]] and [[]] when args
    are absent and forward them otherwise; [useSphere] keeps the first
    element only (the radius), 1 when args are absent.  In every case the
    collision callback crosses as the flag telling whether there is one. *)
Theorem constructors_normalise_args fn l s s' ids j :
  j < length ids →
  (usePlane fn l s = (s', Ok ids) ∨ useParticle fn l s = (s', Ok ids) →
   ∃ ps p type, sent s' = sent s ++ [OpAddBodies ps type ids] ∧ ps !! j = Some p ∧
                sp_args p = JArr [] ∧
                sp_onCollide p = bool_decide (is_Some (onCollide (fn j)))) ∧
  (useBox fn l s = (s', Ok ids) →
   ∃ ps p, sent s' = sent s ++ [OpAddBodies ps "Box" ids] ∧ ps !! j = Some p ∧
           sp_args p = default_arg (JArr [JNum 1; JNum 1; JNum 1]) (args (fn j)) ∧
           sp_onCollide p = bool_decide (is_Some (onCollide (fn j)))) ∧
  (useCylinder fn l s = (s', Ok ids) →
   ∃ ps p, sent s' = sent s ++ [OpAddBodies ps "Cylinder" ids] ∧ ps !! j = Some p ∧
           sp_args p = default_arg (JArr []) (args (fn j)) ∧
           sp_onCollide p = bool_decide (is_Some (onCollide (fn j)))) ∧
  (useSphere fn l s = (s', Ok ids) →
   ∃ ps p given, sent s' = sent s ++ [OpAddBodies ps "Sphere" ids] ∧ ps !! j = Some p ∧
                 default_arg (JArr [JNum 1]) (args (fn j)) = JArr given ∧
                 sp_args p = JArr [default JUndef (given !! 0)] ∧
                 sp_onCollide p = bool_decide (is_Some (onCollide (fn j)))).
Proof.
  intros Hj. split_and!.
  - intros [Hrun|Hrun];
      destruct (sent_args _ _ _ _ _ _ _ _ Hrun Hj) as (ps & p & a & Hs & Hp & [= <-] & Ha & Hc);
      eexists ps, p, _; split_and!; done.
  - intros Hrun.
    destruct (sent_args _ _ _ _ _ _ _ _ Hrun Hj) as (ps & p & a & Hs & Hp & [= <-] & Ha & Hc).
    by exists ps, p.
  - intros Hrun.
    destruct (sent_args _ _ _ _ _ _ _ _ Hrun Hj) as (ps & p & a & Hs & Hp & Hargs & Ha & Hc).
    injection Hargs as <-. by exists ps, p.
  - intros Hrun.
    destruct (sent_args _ _ _ _ _ _ _ _ Hrun Hj) as (ps & p & a & Hs & Hp & Hargs & Ha & Hc).
    unfold sphereArgs in Hargs.
    destruct (default_arg (JArr [JNum 1]) (args (fn j))) as [| | | | |given|] eqn:Hd;
      try done.
    injection Hargs as <-. by exists ps, p, given.
Qed.

Lemma constructors_normalise_witness :
  ∃ ps p given,
    sent (useSphere (λ _, Examples.props (JArr [JNum 2; JNum 7])) 1 Examples.empty).1
      = sent Examples.empty ++ [OpAddBodies ps "Sphere" ["B"]] ∧ ps !! 0 = Some p ∧
    default_arg (JArr [JNum 1]) (args (Examples.props (JArr [JNum 2; JNum 7])))
      = JArr given ∧
    sp_args p = JArr [default JUndef (given !! 0)] ∧
    sp_onCollide p = bool_decide (is_Some (onCollide (Examples.props (JArr [JNum 2; JNum 7])))).
Proof.
  destruct (constructors_normalise_args (λ _, Examples.props (JArr [JNum 2; JNum 7])) 1
              Examples.empty
              (useSphere (λ _, Examples.props (JArr [JNum 2; JNum 7])) 1 Examples.empty).1
              ["B"] 0) as (_ & _ & _ & H).
  - simpl. lia.
  - apply H. vm_compute. reflexivity.
Defined.
End Mounting.

(** ** Subscriptions *)

Section SubscriptionFacts.
Import Provider Hooks Session Spec Invariants.

Lemma routed_deliveries subs id type cb obs :
  subs !! id = Some {[type := cb]} →
  filter (λ c, c.1.1 = id) (deliveries subs obs) = observed id type cb obs.
Proof.
  intros Hsub. unfold deliveries, observed.
  induction obs as [|[[id' value] type'] obs IH]; [done |].
  simpl. unfold delivery at 1. simpl.
  destruct (decide (id' = id)) as [->|Hne].
  - rewrite Hsub. destruct (decide (type' = type)) as [->|Hty].
    + rewrite lookup_singleton_eq.
      rewrite decide_True by done. rewrite filter_cons_True by done.
      f_equal. exact IH.
    + rewrite lookup_singleton_ne by done.
      rewrite decide_False by (intros [_ ?]; done). exact IH.
  - rewrite decide_False by (intros [? _]; done).
    destruct (subs !! id') as [sub|]; [| exact IH].
    destruct (sub !! type'); [| exact IH].
    rewrite filter_cons_False by done. exact IH.
Qed.

(** X14: a subscription is served by the frames that follow it.  After
    [subscribe] returned id [id] for property [type] with callback [cb],
    a frame invokes [cb] once for every observation carrying [id] and
    [type], in order and with the observation's value, and invokes nothing
    under [id] for observations of another type. *)
Theorem subscription_receives_its_observations
    ref type index target cb shouldInvalidate msg s :
  let s1 := (subscribe ref type index target cb s).1 in
  let id := (subscribe ref type index target cb s).2 in
  routed id (frameHandler shouldInvalidate msg s1) =
  routed id s ++ observed id type cb (observations msg).
Proof.
  cbv zeta. unfold routed. rewrite frame_calls, filter_app.
  assert (calls (subscribe ref type index target cb s).1 = calls s) as ->.
  { unfold subscribe. simpl.
    destruct (getUUID _ _ _) as [u|]; [destruct (decide (u = "")) |]; done. }
  f_equal. apply routed_deliveries.
  unfold subscribe. simpl.
  destruct (getUUID _ _ _) as [u|]; [destruct (decide (u = "")) |]; simpl;
    apply lookup_insert_eq.
Qed.

Lemma ids_below_handle e s : ids_below s → ids_below (handle e s).
Proof.
  intros Hinv. destruct e as [ref type index target cb | id' | si msg | p n dt d]; simpl.
  - unfold ids_below, subscribe. simpl.
    assert (∀ id, is_Some (<[incrementingId s := {[type := cb]}]> (subscriptions s) !! id) →
                  id < S (incrementingId s)) as Hnew.
    { intros id. destruct (decide (id = incrementingId s)) as [->|Hne]; [lia |].
      rewrite lookup_insert_ne by done. intros H. specialize (Hinv id H). lia. }
    destruct (getUUID _ _ _) as [u|]; [destruct (decide (u = "")) |]; simpl; exact Hnew.
  - unfold ids_below, unsubscribe. simpl. intros id.
    destruct (decide (id' = id)) as [->|Hne].
    + rewrite lookup_delete_eq. by intros [? ?].
    + rewrite lookup_delete_ne by done. apply Hinv.
  - unfold ids_below. destruct (frame_keeps_subscriptions si msg s) as [-> ->]. done.
  - unfold loop. destruct p; done.
Qed.

(** X15: subscription ids are never reused while live.  Over any session
    (subscriptions, unsubscriptions, frames, render ticks) every live
    subscription id stays below the counter, so the id that the next
    [subscribe] hands out has no entry: the new subscription replaces
    nothing, and every earlier subscription keeps its callback. *)
Theorem subscription_ids_fresh es s :
  ids_below s →
  ids_below (run es s) ∧
  ∀ ref type index target cb,
    let s' := run es s in
    let s'' := (subscribe ref type index target cb s').1 in
    let id := (subscribe ref type index target cb s').2 in
    subscriptions s' !! id = None ∧
    subscriptions s'' !! id = Some {[type := cb]} ∧
    ∀ id', id' ≠ id → subscriptions s'' !! id' = subscriptions s' !! id'.
Proof.
  intros Hinv.
  assert (ids_below (run es s)) as Hrun.
  { revert s Hinv. induction es as [|e es IH]; intros s Hinv; simpl; [done |].
    apply IH. by apply ids_below_handle. }
  split; [done |]. intros ref type index target cb. cbv zeta.
  set (s' := run es s) in *. split_and!.
  - unfold subscribe. simpl.
    destruct (subscriptions s' !! incrementingId s') as [x|] eqn:Hx; [| done].
    assert (incrementingId s' < incrementingId s') by (apply Hrun; eauto). lia.
  - unfold subscribe. simpl.
    destruct (getUUID _ _ _) as [u|]; [destruct (decide (u = "")) |]; simpl;
      apply lookup_insert_eq.
  - intros id' Hne. unfold subscribe in *. simpl in *.
    destruct (getUUID _ _ _) as [u|]; [destruct (decide (u = "")) |]; simpl;
      by rewrite lookup_insert_ne.
Qed.

Lemma subscription_ids_witness :
  ids_below (run [Subscribe (Some 1) "position" None "bodies" 7; Unsubscribe 0]
               Examples.empty).
Proof.
  apply (subscription_ids_fresh
           [Subscribe (Some 1) "position" None "bodies" 7; Unsubscribe 0] Examples.empty).
  intros id [x Hx]. vm_compute in Hx. discriminate Hx.
Defined.
End SubscriptionFacts.

(** ** The host's world and identity table *)

Section HostFacts.
Import Worker Spec Invariants.

Variable engine : list nat → Res (list nat).

Lemma table_of_world (f : nat → string) w (m : gmap string nat) id :
  foldl (λ acc l, <[f l := l]> acc) m w !! id =
  match last (filter (λ l, f l = id) w) with
  | Some l => Some l
  | None => m !! id
  end.
Proof.
  revert m. induction w as [|l w IH]; intros m; simpl; [done |].
  rewrite IH. destruct (decide (f l = id)) as [Heq|Hne].
  - rewrite filter_cons_True by done.
    destruct (filter (λ l, f l = id) w) as [|l' ls] eqn:Hf; simpl.
    + rewrite <- Heq. apply lookup_insert_eq.
    + destruct (last (l' :: ls)) eqn:E; [done | by apply last_None in E].
  - rewrite filter_cons_False by done.
    destruct (last _); [done |]. by rewrite lookup_insert_ne.
Qed.

(** X16: [syncBodies] publishes the identities of the world in order and
    rebuilds the identity table from nothing: the table then has an entry
    for exactly the identities of the world's bodies, each naming a body of
    the world that carries that identity (the last one, when several do);
    entries of bodies that left the world are gone. *)
Theorem sync_rebuilds_table s :
  let s' := (syncBodies s).1 in
  outbox s' = outbox s ++ [Sync (world_uuids s)] ∧
  world s' = world s ∧ store s' = store s ∧ synced s' ∧
  (∀ id l, bodies s' !! id = Some l →
     l ∈ world s ∧ uuid_at s l = id ∧
     ∀ l', last (filter (λ l, uuid_at s l = id) (world s)) = Some l' → l' = l) ∧
  (∀ id, id ∈ world_uuids s ↔ is_Some (bodies s' !! id)).
Proof.
  cbv zeta. destruct (syncBodies_spec s) as (s' & Hrun & Hst & Hw & _ & Hout & Htab).
  rewrite Hrun. simpl. split_and!; try done.
  - unfold synced. rewrite Htab, Hw. unfold uuid_at. by rewrite Hst.
  - intros id l. rewrite Htab, table_of_world, lookup_empty.
    destruct (last (filter _ (world s))) as [l'|] eqn:Hlast; [| done].
    intros [= <-].
    assert (l' ∈ filter (λ l, uuid_at s l = id) (world s)) as Hin.
    { apply last_Some in Hlast as [ls ->]. apply elem_of_app. right. by left. }
    apply list_elem_of_filter in Hin as [Hid Hin]. split_and!; try done.
    by intros ? [= <-].
  - intros id. rewrite Htab, table_of_world, lookup_empty. unfold world_uuids. split.
    + intros [l [Hid Hl]]%list_elem_of_fmap.
      destruct (last (filter (λ l, uuid_at s l = id) (world s))) eqn:Hlast; [eauto |].
      apply last_None in Hlast.
      assert (l ∈ filter (λ l, uuid_at s l = id) (world s)) as Hin
        by (apply list_elem_of_filter; done).
      rewrite Hlast in Hin. by apply elem_of_nil in Hin.
    + destruct (last (filter _ (world s))) as [l|] eqn:Hlast; [| by intros [? ?]].
      intros _.
      assert (l ∈ filter (λ l, uuid_at s l = id) (world s)) as Hin.
      { apply last_Some in Hlast as [ls ->]. apply elem_of_app. right. by left. }
      apply list_elem_of_filter in Hin as [Hid Hin].
      apply list_elem_of_fmap. by exists l.
Qed.

Lemma addBody_ok id type props sync s s' :
  addBody id type props sync s = (s', Ok tt) →
  ∃ b, uuid b = id ∧ store s' = <[next s := b]> (store s) ∧
       next s' = S (next s) ∧ world s' = world s ++ [next s] ∧
       (if sync then outbox s' = outbox s ++ [Sync (world_uuids s')] ∧ synced s'
        else outbox s' = outbox s ∧ bodies s' = bodies s).
Proof.
  unfold addBody, bind, new_body, lift, update_body, world_addBody, modify, ret.
  destruct (shapes_for type _) as [shs|e]; simpl; [| done].
  destruct (index3 (default_arg _ (bp_position props))) as [p|e]; simpl; [| done].
  destruct (index3 (default_arg _ (bp_rotation props))) as [r|e]; simpl; [| done].
  set (b := set_quaternion (QFromEuler r.1.1 r.1.2 r.2)
              (set_position p
                 (foldl (λ b sh, addShape sh b)
                    {| uuid := id; kinematic := truthy (isKinematic props);
                       options := extra props; shapes := [];
                       position := (JNum 0, JNum 0, JNum 0);
                       quaternion := QIdentity |} shs))).
  assert (uuid b = id) as Hb.
  { unfold b. simpl.
    assert (∀ shs b, uuid (foldl (λ b sh, addShape sh b) b shs) = uuid b) as H.
    { clear. induction shs as [|sh shs IH]; intros b; simpl; [done | by rewrite IH]. }
    by rewrite H. }
  destruct sync; intros [= <-]; exists b; simpl; split_and!; try done;
    apply map_eq; intros l; (destruct (decide (l = next s)) as [->|Hne];
      [rewrite !lookup_alter_eq, !lookup_insert_eq; done
      |rewrite !lookup_alter_ne, !lookup_insert_ne by done; done]).
Qed.

(** X17: a body that was just added is the one its identity addresses.
    After an [addBody] that returned, [setPosition] for the same identity
    returns too and moves exactly the new body (also when an older body
    carries the same identity): no other body changes, the world keeps its
    order and nothing is published. *)
Theorem added_body_is_addressed id type props v p s s1 :
  task engine (AddBody id type props) true s = (s1, Ok tt) →
  index3 v = Ok p →
  ∃ s2 b,
    task engine (SetPosition id v) true s1 = (s2, Ok tt) ∧
    store s1 !! next s = Some b ∧ uuid b = id ∧
    store s2 = <[next s := set_position p b]> (store s1) ∧
    world s2 = world s1 ∧ outbox s2 = outbox s1 ∧ bodies s2 = bodies s1.
Proof.
  simpl. intros Hadd Hv.
  destruct (addBody_ok _ _ _ _ _ _ Hadd) as (b & Hb & Hstore & Hnext & Hworld & _ & Hsynced).
  assert (bodies s1 !! id = Some (next s)) as Htab.
  { rewrite Hsynced, table_of_world, Hworld, filter_app.
    assert (uuid_at s1 (next s) = id) as Hid.
    { unfold uuid_at. rewrite Hstore, lookup_insert_eq. done. }
    rewrite (filter_cons_True _ (next s)) by done.
    rewrite filter_nil, last_snoc. done. }
  unfold body_of. unfold bind, get, lift, update_body, modify, ret. simpl.
  rewrite Htab. simpl. rewrite Hv. simpl.
  eexists _, b. split; [reflexivity |]. simpl. split_and!; try done.
  - rewrite Hstore. apply lookup_insert_eq.
  - apply map_eq. intros l. destruct (decide (l = next s)) as [->|Hne].
    + rewrite lookup_alter_eq, lookup_insert_eq, Hstore, lookup_insert_eq. done.
    + rewrite lookup_alter_ne, lookup_insert_ne by done. done.
Qed.

Lemma remove_first_snoc l w : l ∉ w → remove_first l (w ++ [l]) = w.
Proof.
  induction w as [|l' w IH]; intros Hout; simpl.
  - by rewrite decide_True.
  - apply not_elem_of_cons in Hout as [Hne Hout].
    rewrite decide_False by done. by rewrite IH.
Qed.

(** X18: adding a body and then removing it by its identity gives the
    world back: the body list and its identities are what they were, and
    two syncs were published, the first listing the new identity last, the
    second listing the original identities. *)
Theorem add_then_remove_restores_world id type props s s1 :
  allocated s →
  task engine (AddBody id type props) true s = (s1, Ok tt) →
  ∃ s2,
    task engine (RemoveBody id) true s1 = (s2, Ok tt) ∧
    world s2 = world s ∧ world_uuids s2 = world_uuids s ∧
    outbox s2 = outbox s ++ [Sync (world_uuids s ++ [id]); Sync (world_uuids s)].
Proof.
  simpl. intros Hwf Hadd.
  destruct (addBody_ok _ _ _ _ _ _ Hadd)
    as (b & Hb & Hstore & Hnext & Hworld & Hout & Hsynced).
  assert (bodies s1 !! id = Some (next s)) as Htab.
  { rewrite Hsynced, table_of_world, Hworld, filter_app.
    assert (uuid_at s1 (next s) = id) as Hid.
    { unfold uuid_at. rewrite Hstore, lookup_insert_eq. done. }
    rewrite (filter_cons_True _ (next s)) by done.
    rewrite filter_nil, last_snoc. done. }
  assert (next s ∉ world s) as Hfresh.
  { intros Hin. specialize (Hwf _ Hin). lia. }
  assert (world_uuids s1 = world_uuids s ++ [id]) as Huuids.
  { rewrite (world_uuids_extend s s1 b) by done. by rewrite Hb. }
  unfold removeBody, bind, get, world_removeBody. rewrite Htab.
  destruct (syncBodies_spec (set_world (remove_first (next s) (world s1)) s1))
    as (s2 & Hrun & Hst & Hw & _ & Hout2 & _).
  exists s2. rewrite Hrun. simpl in *.
  rewrite Hworld, remove_first_snoc in * by done.
  assert (world_uuids s2 = world_uuids s) as Hu2.
  { unfold world_uuids, uuid_at. rewrite Hw, Hst, Hstore.
    apply list_fmap_ext. intros i l Hl.
    rewrite lookup_insert_ne; [done |].
    intros <-. apply Hfresh. by eapply list_elem_of_lookup_2. }
  split_and!; try done.
  rewrite Hout2, Hout, Huuids, <- app_assoc. simpl. do 4 f_equal.
  unfold world_uuids, uuid_at. simpl. rewrite Hstore.
  apply list_fmap_ext. intros i l Hl.
  rewrite lookup_insert_ne; [done |].
  intros <-. apply Hfresh. by eapply list_elem_of_lookup_2.
Qed.

End HostFacts.

Section HostFactsScenarios.
Import Worker Spec Invariants.

Lemma added_body_witness :
  ∃ s2 b,
    task Examples.lenient (SetPosition "A" (JArr [JNum 1; JNum 2; JNum 3])) true
      (Examples.host [AddBody "A" "Plane" Examples.plain]) = (s2, Ok tt) ∧
    store (Examples.host [AddBody "A" "Plane" Examples.plain]) !! next initial = Some b ∧
    uuid b = "A" ∧
    store s2 = <[next initial := set_position (JNum 1, JNum 2, JNum 3) b]>
                 (store (Examples.host [AddBody "A" "Plane" Examples.plain])) ∧
    world s2 = world (Examples.host [AddBody "A" "Plane" Examples.plain]) ∧
    outbox s2 = outbox (Examples.host [AddBody "A" "Plane" Examples.plain]) ∧
    bodies s2 = bodies (Examples.host [AddBody "A" "Plane" Examples.plain]).
Proof.
  apply (added_body_is_addressed Examples.lenient "A" "Plane" Examples.plain
           (JArr [JNum 1; JNum 2; JNum 3]) (JNum 1, JNum 2, JNum 3) initial).
  - vm_compute. reflexivity.
  - reflexivity.
Defined.

Lemma add_then_remove_witness :
  ∃ s2,
    task Examples.lenient (RemoveBody "B") true
      (Examples.host [AddBody "A" "Plane" Examples.plain;
                      AddBody "B" "Plane" Examples.plain]) = (s2, Ok tt) ∧
    world s2 = world (Examples.host [AddBody "A" "Plane" Examples.plain]) ∧
    world_uuids s2 = world_uuids (Examples.host [AddBody "A" "Plane" Examples.plain]) ∧
    outbox s2 =
      outbox (Examples.host [AddBody "A" "Plane" Examples.plain]) ++
      [Sync (world_uuids (Examples.host [AddBody "A" "Plane" Examples.plain]) ++ ["B"]);
       Sync (world_uuids (Examples.host [AddBody "A" "Plane" Examples.plain]))].
Proof.
  apply (add_then_remove_restores_world Examples.lenient "B" "Plane" Examples.plain
           (Examples.host [AddBody "A" "Plane" Examples.plain])).
  - intros l Hl. vm_compute in Hl. apply list_elem_of_singleton in Hl as ->.
    vm_compute. lia.
  - vm_compute. reflexivity.
Defined.
End HostFactsScenarios.

(** ** The host under arbitrary messages *)

Section HostInvariant.
Import Worker Spec Invariants.

Variable engine : list nat → Res (list nat).
Hypothesis engine_removes_only : removes_only engine.

Lemma remove_first_sublist l w : sublist (remove_first l w) w.
Proof.
  induction w as [|l' w IH]; simpl; [done |].
  destruct (decide (l' = l)); [by apply sublist_cons | by apply sublist_skip].
Qed.

Lemma well_formed_sublist s w :
  well_formed s → sublist w (world s) → well_formed (set_world w s).
Proof.
  intros (Hnd & Hlt & Hst) Hsub. split_and!; simpl; [| | done].
  - by eapply sublist_NoDup.
  - intros l Hl. apply Hlt. by eapply elem_of_sublist.
Qed.

Lemma well_formed_alter s f l :
  well_formed s → well_formed (set_store (λ st, alter f l st) s).
Proof.
  intros (Hnd & Hlt & Hst). split_and!; simpl; [done | done |].
  intros l' Hl'. destruct (decide (l = l')) as [->|Hne].
  - rewrite lookup_alter_eq. apply fmap_is_Some. by apply Hst.
  - rewrite lookup_alter_ne by done. by apply Hst.
Qed.

Lemma well_formed_sync s : well_formed s → well_formed (syncBodies s).1.
Proof. intros (Hnd & Hlt & Hst). split_and!; done. Qed.

Lemma well_formed_new s b : well_formed s → well_formed (new_body b s).1.
Proof.
  intros (Hnd & Hlt & Hst). split_and!; simpl; [done | |].
  - intros l Hl. specialize (Hlt l Hl). lia.
  - intros l Hl. destruct (decide (l = next s)) as [->|Hne].
    + rewrite lookup_insert_eq. eauto.
    + rewrite lookup_insert_ne by done. apply Hst. lia.
Qed.

Lemma well_formed_addBody id type props sync s :
  well_formed s → well_formed (addBody id type props sync s).1.
Proof.
  intros Hwf. unfold addBody.
  unfold bind at 1. pose proof (well_formed_new s
    {| uuid := id; kinematic := truthy (isKinematic props); options := extra props;
       shapes := []; position := (JNum 0, JNum 0, JNum 0); quaternion := QIdentity |} Hwf)
    as Hwf1.
  assert (next s ∉ world s) as Hfresh.
  { intros Hin. destruct Hwf as (_ & Hlt & _). specialize (Hlt _ Hin). lia. }
  assert (world (new_body
            {| uuid := id; kinematic := truthy (isKinematic props);
               options := extra props; shapes := [];
               position := (JNum 0, JNum 0, JNum 0); quaternion := QIdentity |} s).1
          = world s) as Hworld by done.
  assert (next s < next (new_body
            {| uuid := id; kinematic := truthy (isKinematic props);
               options := extra props; shapes := [];
               position := (JNum 0, JNum 0, JNum 0); quaternion := QIdentity |} s).1)
    as Hnext by (simpl; lia).
  destruct (new_body _ s) as [s1 r1] eqn:Hnew. simpl in Hwf1, Hworld, Hnext.
  assert (r1 = Ok (next s)) as -> by (unfold new_body in Hnew; congruence).
  clear Hnew. unfold bind, lift, update_body, modify, world_addBody, ret.
  destruct (shapes_for type _) as [shs|e]; simpl; [| done].
  pose proof (well_formed_alter s1 (λ b, foldl (λ b sh, addShape sh b) b shs) (next s) Hwf1)
    as Hwf2.
  destruct (index3 (default_arg _ (bp_position props))) as [p|e]; simpl; [| done].
  pose proof (well_formed_alter _ (set_position p) (next s) Hwf2) as Hwf3.
  destruct (index3 (default_arg _ (bp_rotation props))) as [r|e]; simpl; [| done].
  pose proof (well_formed_alter _ (set_quaternion (QFromEuler r.1.1 r.1.2 r.2)) (next s) Hwf3)
    as (Hnd & Hlt & Hst).
  simpl in *.
  assert (well_formed
            (set_world (world s1 ++ [next s])
               (set_store (λ st, alter (set_quaternion (QFromEuler r.1.1 r.1.2 r.2)) (next s) st)
                  (set_store (λ st, alter (set_position p) (next s) st)
                     (set_store (λ st, alter (λ b, foldl (λ b sh, addShape sh b) b shs)
                                         (next s) st) s1))))) as Hwf4.
  { split_and!; simpl; [| | done].
    - apply NoDup_app. split_and!; [done | | apply NoDup_singleton].
      intros l Hl ->%list_elem_of_singleton. rewrite Hworld in Hl. done.
    - intros l [Hl| ->%list_elem_of_singleton]%elem_of_app; [by apply Hlt | done]. }
  destruct sync; [| exact Hwf4]. by apply well_formed_sync in Hwf4.
Qed.

Lemma well_formed_removeBody id sync s :
  well_formed s → well_formed (removeBody engine id sync s).1.
Proof.
  intros Hwf. unfold removeBody, bind, get, world_removeBody.
  destruct (bodies s !! id) as [l|].
  - pose proof (well_formed_sublist s _ Hwf (remove_first_sublist l (world s))) as Hwf1.
    destruct sync; [by apply well_formed_sync in Hwf1 | done].
  - destruct (engine (world s)) as [w|e] eqn:Heng; [| done].
    pose proof (well_formed_sublist s _ Hwf (engine_removes_only _ _ Heng)) as Hwf1.
    destruct sync; [by apply well_formed_sync in Hwf1 | done].
Qed.

Lemma well_formed_for_from {A} (body : nat → A → Eff State unit) xs i s :
  (∀ i x s, well_formed s → well_formed (body i x s).1) →
  well_formed s → well_formed (for_from i xs body s).1.
Proof.
  intros Hbody. revert i s. induction xs as [|x xs IH]; intros i s Hwf; simpl; [done |].
  unfold bind. specialize (Hbody i x s Hwf).
  destruct (body i x s) as [s1 [[]|e]]; simpl in *; [by apply IH | done].
Qed.

Lemma well_formed_for_each {A} (body : A → Eff State unit) xs s :
  (∀ x s, well_formed s → well_formed (body x s).1) →
  well_formed s → well_formed (for_each xs body s).1.
Proof.
  intros Hbody. revert s. induction xs as [|x xs IH]; intros s Hwf; simpl; [done |].
  unfold bind. specialize (Hbody x s Hwf).
  destruct (body x s) as [s1 [[]|e]]; simpl in *; [by apply IH | done].
Qed.

Lemma well_formed_task msg sync s :
  well_formed s → well_formed (task engine msg sync s).1.
Proof.
  intros Hwf. destruct msg as [id type props | ids type props | id | ids | id v | id v | op];
    simpl.
  - by apply well_formed_addBody.
  - unfold bind.
    pose proof (well_formed_for_from
                  (λ i id, match props !! i with
                           | Some p => addBody id type p false
                           | None => throw (TypeError "cannot destructure undefined")
                           end) ids 0 s) as Hloop.
    destruct (for_from 0 ids _ s) as [s1 [[]|e]]; simpl in Hloop.
    + apply well_formed_sync, Hloop; [| done].
      intros i x s0 Hs0. destruct (props !! i); [by apply well_formed_addBody | done].
    + apply Hloop; [| done].
      intros i x s0 Hs0. destruct (props !! i); [by apply well_formed_addBody | done].
  - by apply well_formed_removeBody.
  - unfold bind.
    pose proof (well_formed_for_each (λ id, removeBody engine id true) ids s) as Hloop.
    destruct (for_each ids _ s) as [s1 [[]|e]]; simpl in Hloop.
    + apply well_formed_sync, Hloop; [| done].
      intros x s0 Hs0. by apply well_formed_removeBody.
    + apply Hloop; [| done]. intros x s0 Hs0. by apply well_formed_removeBody.
  - unfold body_of. unfold bind, get, lift, update_body, modify, ret, throw.
    destruct (bodies s !! id); simpl; [| done].
    destruct (index3 v); simpl; [by apply well_formed_alter | done].
  - unfold body_of. unfold bind, get, lift, update_body, modify, ret, throw.
    destruct (bodies s !! id); simpl; [| done].
    destruct (index3 v); simpl; [by apply well_formed_alter | done].
  - done.
Qed.

End HostInvariant.

Section HostInvariantScenarios.
Import Worker Spec Invariants.

End HostInvariantScenarios.

(** ** A batch with fewer property records than identities *)

Section ShortBatch.
Import Worker Spec.

Variable engine : list nat → Res (list nat).

Lemma addBody_unsynced id type p s :
  outbox (addBody id type p false s).1 = outbox s ∧
  bodies (addBody id type p false s).1 = bodies s ∧
  next (addBody id type p false s).1 = S (next s) ∧
  match (addBody id type p false s).2 with
  | Ok _ => world (addBody id type p false s).1 = world s ++ [next s]
  | Throw _ => world (addBody id type p false s).1 = world s
  end.
Proof.
  unfold addBody, bind, new_body, lift, update_body, world_addBody, modify, ret.
  destruct (shapes_for type _) as [shs|e]; simpl; [| done].
  destruct (index3 (default_arg _ (bp_position p))) as [q|e]; simpl; [| done].
  destruct (index3 (default_arg _ (bp_rotation p))) as [r|e]; simpl; done.
Qed.

Lemma short_loop type (props : list BodyProps) ids i s :
  i ≤ length props → length props < i + length ids →
  ∃ s' e k,
    for_from i ids
      (λ i id, match props !! i with
               | Some p => addBody id type p false
               | None => throw (TypeError "cannot destructure undefined")
               end) s = (s', Throw e) ∧
    outbox s' = outbox s ∧ bodies s' = bodies s ∧
    i + k ≤ length props ∧ world s' = world s ++ seq (next s) k.
Proof.
  revert i s. induction ids as [|id ids IH]; intros i s Hi Hshort; simpl in *; [lia |].
  unfold bind at 1. destruct (props !! i) as [p|] eqn:Hp.
  - apply lookup_lt_Some in Hp.
    destruct (addBody_unsynced id type p s) as (Hout & Htab & Hnext & Hworld).
    destruct (addBody id type p false s) as [s1 [[]|e]]; simpl in *.
    + destruct (IH (S i) s1) as (s' & e & k & Hrun & Hout' & Htab' & Hk & Hworld');
        [lia | lia |].
      exists s', e, (S k). split; [done |]. split; [congruence |]. split; [congruence |].
      split; [lia |]. rewrite Hworld', Hworld, Hnext, <- app_assoc. done.
    + exists s1, e, 0. split; [done |]. split; [done |]. split; [done |].
      split; [lia |]. simpl. by rewrite app_nil_r.
  - exists s, (TypeError "cannot destructure undefined"), 0.
    split; [done |]. split; [done |]. split; [done |]. split; [lia |].
    simpl. by rewrite app_nil_r.
Qed.

(** X20: a batch that names more identities than it carries property
    records throws.  The bodies made before the throw stay in the world,
    at most one per property record, but nothing is published and the
    identity table is not rebuilt, so neither side can address them. *)
Theorem short_batch_leaves_unpublished_bodies ids type props sync s :
  length props < length ids →
  ∃ s' e k,
    task engine (AddBodies ids type props) sync s = (s', Throw e) ∧
    outbox s' = outbox s ∧ bodies s' = bodies s ∧
    k ≤ length props ∧ world s' = world s ++ seq (next s) k.
Proof.
  intros Hshort.
  destruct (short_loop type props ids 0 s) as (s' & e & k & Hrun & Hout & Htab & Hk & Hw);
    [lia | lia |].
  exists s', e, k. simpl. unfold bind at 1. rewrite Hrun. done.
Qed.
End ShortBatch.

Section ShortBatchScenarios.
Import Worker Spec.

Lemma short_batch_witness :
  ∃ s' e k,
    task Examples.lenient (AddBodies ["A"; "B"] "Plane" [Examples.plain]) true initial
      = (s', Throw e) ∧
    outbox s' = outbox initial ∧ bodies s' = bodies initial ∧
    k ≤ length [Examples.plain] ∧ world s' = world initial ++ seq (next initial) k.
Proof.
  apply (short_batch_leaves_unpublished_bodies Examples.lenient
           ["A"; "B"] "Plane" [Examples.plain] true initial).
  simpl. lia.
Defined.
End ShortBatchScenarios.

(** ** The two sides of a sync *)

Section BothSides.
Import Worker Spec.

Lemma filter_unique {A B} `{EqDecision B} (f : A → B) (w : list A) i l :
  NoDup (f <$> w) → w !! i = Some l → filter (λ l', f l' = f l) w = [l].
Proof.
  revert i. induction w as [|x w IH]; intros i Hnd Hi; [done |].
  rewrite fmap_cons in Hnd. apply NoDup_cons in Hnd as [Hx Hnd].
  destruct i as [|i]; simpl in Hi.
  - injection Hi as ->. rewrite filter_cons_True by done. f_equal.
    apply filter_keeps_none.
    intros y Hy Heq. apply Hx. rewrite <- Heq. apply list_elem_of_fmap. by exists y.
  - rewrite filter_cons_False; [by eapply IH |].
    intros Heq. apply Hx. rewrite Heq. apply list_elem_of_fmap. exists l.
    split; [done |]. by eapply list_elem_of_lookup_2.
Qed.

(** X21: the index the render side reads poses at is the host's own.
    When the bodies of the world carry distinct identities, a sync
    publishes a list from which the provider's registry sends the identity
    of the body at world position [i] to [i], while the host's rebuilt
    table sends the same identity to that very body. *)
Theorem registry_and_table_agree_after_sync s (r : Provider.State) :
  NoDup (world_uuids s) →
  ∃ published,
    outbox (syncBodies s).1 = outbox s ++ [Sync published] ∧
    ∀ i l, world s !! i = Some l →
      Provider.bodies (Provider.onSync published r) !! uuid_at s l = Some (Z.of_nat i) ∧
      bodies (syncBodies s).1 !! uuid_at s l = Some l.
Proof.
  intros Hnd. exists (world_uuids s).
  destruct (syncBodies_spec s) as (s' & Hrun & _ & _ & _ & Hout & Htab).
  rewrite Hrun. simpl. split; [done |]. intros i l Hl.
  assert (world_uuids s !! i = Some (uuid_at s l)) as Hi.
  { unfold world_uuids. by rewrite list_lookup_fmap, Hl. }
  split.
  - unfold Provider.onSync. simpl. rewrite sync_lookup.
    rewrite decide_True by (by eapply list_elem_of_lookup_2).
    f_equal. by apply indexOf_position.
  - rewrite Htab, table_of_world. by rewrite (filter_unique (uuid_at s) (world s) i l).
Qed.

(** X22: on a body list without repeated identities, the frame handler's
    in-place indexing is the older [sync] laid over the registry it finds:
    the listed identities get the entries a sync would give them, and the
    entries a sync would have dropped survive. *)
Theorem frame_indexing_overlays_sync shouldInvalidate msg ids (r : Provider.State) :
  NoDup ids → Provider.fm_bodies msg = Some ids →
  Provider.bodies (Provider.frameHandler shouldInvalidate msg r) =
  Provider.bodies (Provider.onSync ids r) ∪ Provider.bodies r.
Proof.
  intros Hnd Hmsg. rewrite frame_bodies, Hmsg. simpl.
  apply map_eq. intros u. rewrite lookup_union, sync_lookup.
  destruct (decide (u ∈ ids)) as [Hin|Hout].
  - apply list_elem_of_lookup_1 in Hin as [i Hi].
    rewrite (index_bodies_position ids 0 _ i u) by done.
    rewrite (indexOf_position ids i u) by done. simpl.
    by destruct (Provider.bodies r !! u).
  - rewrite index_bodies_other by done. by destruct (Provider.bodies r !! u).
Qed.
End BothSides.

Section BothSidesScenarios.
Import Worker Spec.

Lemma registry_and_table_witness :
  ∃ published,
    outbox (syncBodies (Examples.host [AddBody "A" "Plane" Examples.plain;
                                       AddBody "B" "Plane" Examples.plain])).1 =
    outbox (Examples.host [AddBody "A" "Plane" Examples.plain;
                           AddBody "B" "Plane" Examples.plain]) ++ [Sync published] ∧
    ∀ i l, world (Examples.host [AddBody "A" "Plane" Examples.plain;
                                 AddBody "B" "Plane" Examples.plain]) !! i = Some l →
      Provider.bodies (Provider.onSync published Examples.empty) !!
        uuid_at (Examples.host [AddBody "A" "Plane" Examples.plain;
                                AddBody "B" "Plane" Examples.plain]) l = Some (Z.of_nat i) ∧
      bodies (syncBodies (Examples.host [AddBody "A" "Plane" Examples.plain;
                                         AddBody "B" "Plane" Examples.plain])).1 !!
        uuid_at (Examples.host [AddBody "A" "Plane" Examples.plain;
                                AddBody "B" "Plane" Examples.plain]) l = Some l.
Proof.
  apply (registry_and_table_agree_after_sync
           (Examples.host [AddBody "A" "Plane" Examples.plain;
                           AddBody "B" "Plane" Examples.plain]) Examples.empty).
  apply (bool_decide_unpack (NoDup _)). vm_compute. exact I.
Defined.

Lemma frame_indexing_witness :
  Provider.bodies (Provider.frameHandler true (Examples.frame true (Some ["A"; "B"]))
                     (Provider.onSync ["Z"] Examples.empty)) =
  Provider.bodies (Provider.onSync ["A"; "B"] (Provider.onSync ["Z"] Examples.empty)) ∪
  Provider.bodies (Provider.onSync ["Z"] Examples.empty).
Proof.
  apply (frame_indexing_overlays_sync true (Examples.frame true (Some ["A"; "B"]))
           ["A"; "B"] (Provider.onSync ["Z"] Examples.empty)).
  - apply (bool_decide_unpack (NoDup ["A"; "B"])). vm_compute. exact I.
  - reflexivity.
Defined.
End BothSidesScenarios.
